(** * Gemini task manager: the text-generation collaborators and the task engine

    A shallow embedding of [src/prd_parser.js] (the original parser) and of
    its enhanced revision (backup files, validation of revised tasks, line
    fallback for expansions), followed by the task engine of the
    specification (next-task selection and revision merge).

    Layout: definitions first (strings, values, the effect monad, the two
    versions of the three collaborator functions, the engine), then the
    lemmas and theorems. *)

From stdpp Require Import base option list gmap numbers sorting.
From Stdlib Require Ascii String.
Import String.StringSyntax.
Local Open Scope string_scope.
Local Open Scope list_scope.

Set Default Proof Using "Type".
#[local] Set Warnings "-register-all".

(* ===================================================================== *)
(** * Part I. Definitions *)
(* ===================================================================== *)

(** ** JavaScript strings

    A JavaScript string is a sequence of UTF-16 code units.  The regular
    expressions of the parser carry no [u] flag, so they too work on code
    units. *)

Abbreviation jsstring := (list N).

(** The code units of an ASCII literal. *)
Definition js (s : String.string) : jsstring :=
  map Ascii.N_of_ascii (String.list_ascii_of_string s).

Definition LF : N := 10.

(** The three-backtick fence, and the two markers of the original cleanup. *)
Definition fence : jsstring := Eval cbv in js "```".
Definition fence_json : jsstring := Eval cbv in js "```json".
Definition json_word : jsstring := Eval cbv in js "json".

Module JsString.

(** [s.startsWith(p)] *)
Fixpoint startsWith (p s : jsstring) : bool :=
  match p, s with
  | [], _ => true
  | a :: p', b :: s' => (a =? b)%N && startsWith p' s'
  | _ :: _, [] => false
  end.

(** The rest of [s] after the prefix [p], when [s] starts with [p]. *)
Fixpoint stripPrefix (p s : jsstring) : option jsstring :=
  match p, s with
  | [], _ => Some s
  | a :: p', b :: s' => if (a =? b)%N then stripPrefix p' s' else None
  | _ :: _, [] => None
  end.

(** [s.includes(p)] *)
Fixpoint includes (p s : jsstring) : bool :=
  startsWith p s ||
  match s with
  | [] => false
  | _ :: s' => includes p s'
  end.

(** The text before and the text after the leftmost occurrence of [p]. *)
Fixpoint cutAtFirst (p s : jsstring) : option (jsstring * jsstring) :=
  match stripPrefix p s with
  | Some r => Some ([], r)
  | None =>
      match s with
      | [] => None
      | c :: s' =>
          match cutAtFirst p s' with
          | Some (a, b) => Some (c :: a, b)
          | None => None
          end
      end
  end.

(** [s.replace(/p/g, r)] for a literal, non-empty pattern [p]: matches are
    found left to right and do not overlap.  [skip] counts the code units
    of the current match still to be consumed. *)
Fixpoint replaceAllFrom (p r : jsstring) (skip : nat) (s : jsstring) : jsstring :=
  match s with
  | [] => []
  | c :: s' =>
      match skip with
      | S k => replaceAllFrom p r k s'
      | O =>
          if startsWith p s
          then r ++ replaceAllFrom p r (length p - 1) s'
          else c :: replaceAllFrom p r 0 s'
      end
  end.

Definition replaceAll (p r s : jsstring) : jsstring := replaceAllFrom p r 0 s.

(** [s.split(sep)] for a one-unit separator; the empty string splits into
    one empty piece. *)
Fixpoint split (sep : N) (s : jsstring) : list jsstring :=
  match s with
  | [] => [[]]
  | c :: s' =>
      if (c =? sep)%N then [] :: split sep s'
      else
        match split sep s' with
        | l :: ls => (c :: l) :: ls
        | [] => [[c]]
        end
  end.

(** [l.join(sep)] *)
Fixpoint join (sep : jsstring) (l : list jsstring) : jsstring :=
  match l with
  | [] => []
  | [x] => x
  | x :: xs => x ++ sep ++ join sep xs
  end.

(** WhiteSpace and LineTerminator of ECMAScript, the units [trim] strips. *)
Definition isWhiteSpace (c : N) : bool :=
  ((9 <=? c) && (c <=? 13) || (c =? 32) || (c =? 160) || (c =? 5760)
   || (8192 <=? c) && (c <=? 8202) || (c =? 8232) || (c =? 8233)
   || (c =? 8239) || (c =? 8287) || (c =? 12288) || (c =? 65279))%N.

Fixpoint trimStart (s : jsstring) : jsstring :=
  match s with
  | [] => []
  | c :: s' => if isWhiteSpace c then trimStart s' else s
  end.

Definition trimEnd (s : jsstring) : jsstring := rev (trimStart (rev s)).

(** [s.trim()] *)
Definition trim (s : jsstring) : jsstring := trimEnd (trimStart s).

(** Decimal digits of a natural number, least significant first. *)
Fixpoint digitsRev (fuel : nat) (n : N) : jsstring :=
  match fuel with
  | O => []
  | S f =>
      (48 + n mod 10)%N ::
      (if (n <? 10)%N then [] else digitsRev f (n / 10)%N)
  end.

(** [String(n)] for a non-negative integer. *)
Definition ofN (n : N) : jsstring := rev (digitsRev (S (N.to_nat (N.log2 n))) n).

End JsString.

(** *** Response cleanup

    The original parser deletes the markers:
    [text.replace(/```json/g, '').replace(/```/g, '').trim()]. *)
Definition cleanOriginal (text : jsstring) : jsstring :=
  JsString.trim (JsString.replaceAll fence [] (JsString.replaceAll fence_json [] text)).

(** The enhanced parser replaces every fenced block by its body:
    [text.replace(/```(?:json)?\n([\s\S]*?)\n```/g, '$1').trim()].

    [matchOpen s] matches [```(?:json)?\n] at the start of [s]: the optional
    group is tried first, and giving it up leaves a [j] where the line feed
    is wanted, so the two alternatives never both apply. *)
Definition matchOpen (s : jsstring) : option jsstring :=
  match JsString.stripPrefix fence s with
  | None => None
  | Some r =>
      match JsString.stripPrefix json_word r with
      | Some r' =>
          match JsString.stripPrefix [LF] r' with
          | Some r'' => Some r''
          | None => JsString.stripPrefix [LF] r
          end
      | None => JsString.stripPrefix [LF] r
      end
  end.

(** A whole fenced block at the start of [s]: the captured body and the text
    after the block.  The lazy [[\s\S]*?] stops at the leftmost [\n```]. *)
Definition matchFenced (s : jsstring) : option (jsstring * jsstring) :=
  match matchOpen s with
  | None => None
  | Some r => JsString.cutAtFirst (LF :: fence) r
  end.

Fixpoint replaceFencedFrom (skip : nat) (s : jsstring) : jsstring :=
  match s with
  | [] => []
  | c :: s' =>
      match skip with
      | S k => replaceFencedFrom k s'
      | O =>
          match matchFenced s with
          | Some (body, rest) =>
              body ++ replaceFencedFrom (length s - length rest - 1) s'
          | None => c :: replaceFencedFrom 0 s'
          end
      end
  end.

Definition replaceFenced (s : jsstring) : jsstring := replaceFencedFrom 0 s.

Definition cleanEnhanced (text : jsstring) : jsstring :=
  JsString.trim (replaceFenced text).

(** The text ["```json\n<body>\n```"]. *)
Definition fencedJson (body : jsstring) : jsstring :=
  fence_json ++ [LF] ++ body ++ [LF] ++ fence.

(** [iso.replace(/[:.]/g, '-')], applied to the ISO timestamp. *)
Definition dashTimestamp (iso : jsstring) : jsstring :=
  map (fun c => if ((c =? 58) || (c =? 46))%N then 45%N else c) iso.

(** ** JavaScript values

    The values that [JSON.parse] and the HTTP client hand to the parser.  A
    number is kept as the decimal [±mant × 10^exp] of its literal; its
    rounding to a double is not modelled. *)

Record decimal := Decimal { dec_neg : bool; dec_mant : N; dec_exp : Z }.

Definition decimalOfN (n : N) : decimal := Decimal false n 0.

Inductive value :=
| VUndefined
| VNull
| VBool (b : bool)
| VNumber (n : decimal)
| VString (s : jsstring)
| VArray (items : list value)
| VObject (fields : list (jsstring * value)).

(** The results of [typeof] on these values. *)
Inductive jstype := TyUndefined | TyObject | TyBoolean | TyNumber | TyString.

Definition typeof (v : value) : jstype :=
  match v with
  | VUndefined => TyUndefined
  | VNull | VArray _ | VObject _ => TyObject
  | VBool _ => TyBoolean
  | VNumber _ => TyNumber
  | VString _ => TyString
  end.

Definition jstype_eqb (a b : jstype) : bool :=
  match a, b with
  | TyUndefined, TyUndefined | TyObject, TyObject | TyBoolean, TyBoolean
  | TyNumber, TyNumber | TyString, TyString => true
  | _, _ => false
  end.

(** ToBoolean *)
Definition truthy (v : value) : bool :=
  match v with
  | VUndefined | VNull => false
  | VBool b => b
  | VNumber n => negb (dec_mant n =? 0)%N
  | VString [] => false
  | VString (_ :: _) | VArray _ | VObject _ => true
  end.

Definition isArray (v : value) : bool :=
  match v with VArray _ => true | _ => false end.

Definition isUndefined (v : value) : bool :=
  match v with VUndefined => true | _ => false end.

Definition jsstring_eqb (a b : jsstring) : bool := bool_decide (a = b).

(** The own property [name] of an object literal; the first binding of a
    name is the one the object holds. *)
Fixpoint lookupField (name : jsstring) (fields : list (jsstring * value)) : value :=
  match fields with
  | [] => VUndefined
  | (k, v) :: rest => if jsstring_eqb k name then v else lookupField name rest
  end.

Inductive key := KName (name : jsstring) | KIndex (i : nat).

(** [v[k]] and [v.k].  [None] is the TypeError of reading a property of
    [undefined] or [null].  The names the parser reads ([candidates],
    [content], [parts], [text], [title], [id]) are defined on no prototype,
    so a named read of an array or of a primitive is [undefined]. *)
Definition getProp (v : value) (k : key) : option value :=
  match v with
  | VUndefined | VNull => None
  | VBool _ | VNumber _ => Some VUndefined
  | VString s =>
      match k with
      | KIndex i => Some (match s !! i with Some c => VString [c] | None => VUndefined end)
      | KName _ => Some VUndefined
      end
  | VArray items =>
      match k with
      | KIndex i => Some (default VUndefined (items !! i))
      | KName _ => Some VUndefined
      end
  | VObject fields =>
      match k with
      | KIndex i => Some (lookupField (JsString.ofN (N.of_nat i)) fields)
      | KName name => Some (lookupField name fields)
      end
  end.

(** Property names read by the parser. *)
Definition k_candidates : key := KName (js "candidates").
Definition k_content : key := KName (js "content").
Definition k_parts : key := KName (js "parts").
Definition k_text : key := KName (js "text").
Definition k_title : key := KName (js "title").
Definition k_id : key := KName (js "id").

(** ** Tasks, as the callers pass them *)

Inductive Priority := High | Medium | Low.
Inductive Status := Todo | InProgress | Done | Blocked.

Record subtask := Subtask {
  sub_index : N;
  sub_title : jsstring;
  sub_status : Status
}.

Record task := Task {
  id : N;
  title : jsstring;
  description : option jsstring;
  priority : Priority;
  status : Status;
  dependsOn : list N;
  subtasks : list subtask
}.

Definition priorityName (p : Priority) : jsstring :=
  match p with High => js "high" | Medium => js "medium" | Low => js "low" end.

Definition statusName (s : Status) : jsstring :=
  match s with
  | Todo => js "todo" | InProgress => js "inprogress"
  | Done => js "done" | Blocked => js "blocked"
  end.

(** ** The world around the parser *)

(** The six prompt templates; their fixed text is not spelled out, the
    interpolated strings are. *)
Inductive template :=
| PrdPrompt | PrdPromptWithTests
| ExpandPrompt | ExpandPromptWithTests
| RevisePrompt | RevisePromptWithTests.

Record generationConfig := GenerationConfig {
  temperature : jsstring;
  maxOutputTokens : option N
}.

Record request := Request {
  req_url : jsstring;
  req_template : template;
  req_holes : list jsstring;
  req_config : option generationConfig
}.

(** What [await axios.post(...)] does: the promise rejects (with the server's
    answer in [error.response.data], if one came) or resolves to a response
    whose [data] is given. *)
Inductive axios_result :=
| Rejected (response : option value)
| Resolved (data : value).

Inductive js_error :=
| AxiosError (response : option value)
| TypeError
| SyntaxError
| FsError
| PlainError (message : jsstring).

Inductive level := LError | LInfo | LDebug.

(** Observable actions, in the order they happen.  [EvLog] is a call of the
    logger (or of [console.log] / [console.error] in the original). *)
Inductive event :=
| EvLog (l : level)
| EvRead (path : jsstring)
| EvPost (r : request)
| EvWrite (path content : jsstring).

Record world := World {
  GEMINI_API_KEY : option jsstring;
  GEMINI_API_ENDPOINT : option jsstring;
  axios_post : request → axios_result;
  (** the [k]-th value of [new Date().toISOString()] *)
  clock : nat → jsstring;
  (** whether [fs.writeFileSync] to this path succeeds *)
  writable : jsstring → bool
}.

Record state := State {
  files : gmap jsstring jsstring;
  trace : list event;
  ticks : nat
}.

Class JsonRuntime := {
  (** [JSON.parse(text)]; [None] is a SyntaxError *)
  JSON_parse : jsstring → option value;
  (** [JSON.stringify(v, null, 2)] *)
  JSON_stringify : value → jsstring
}.

(** ** The effect monad: state and exceptions *)

Inductive outcome (A : Type) :=
| Returned (a : A)
| Thrown (e : js_error).
Arguments Returned {A} a.
Arguments Thrown {A} e.

Definition M (A : Type) : Type := state → outcome A * state.

Definition ret {A} (a : A) : M A := fun s => (Returned a, s).

Definition bind {A B} (m : M A) (f : A → M B) : M B :=
  fun s =>
    match m s with
    | (Returned a, s') => f a s'
    | (Thrown e, s') => (Thrown e, s')
    end.

Definition throw {A} (e : js_error) : M A := fun s => (Thrown e, s).

(** [try { body } catch (e) { handler e }] *)
Definition tryCatch {A} (body : M A) (handler : js_error → M A) : M A :=
  fun s =>
    match body s with
    | (Returned a, s') => (Returned a, s')
    | (Thrown e, s') => handler e s'
    end.

Declare Scope js_scope.
Delimit Scope js_scope with js.
Bind Scope js_scope with M.
Notation "x <- m ;; k" := (bind m (fun x => k))
  (at level 100, m at next level, k at level 200, right associativity) : js_scope.
Notation "m ;; k" := (bind m (fun _ => k))
  (at level 100, k at level 200, right associativity) : js_scope.
Local Open Scope js_scope.

(** The three ways a state changes: events are recorded, a file is stored,
    the clock is read. *)
Definition record (evs : list event) (s : state) : state :=
  State (files s) (trace s ++ evs) (ticks s).

Definition stored (path content : jsstring) (s : state) : state :=
  State (<[path := content]> (files s)) (trace s) (ticks s).

Definition ticked (s : state) : state :=
  State (files s) (trace s) (S (ticks s)).

Definition emit (e : event) : M unit :=
  fun s => (Returned tt, record [e] s).

Definition log (l : level) : M unit := emit (EvLog l).

Definition fromOption {A} (e : js_error) (o : option A) : M A :=
  match o with Some a => ret a | None => throw e end.

(** [v[k]] as a statement: may throw a TypeError. *)
Definition get (v : value) (k : key) : M value := fromOption TypeError (getProp v k).

(** The receiver of [.replace(...)] must be a string: every other value
    coming from JSON has no [replace] method. *)
Definition asString (v : value) : M jsstring :=
  match v with VString s => ret s | _ => throw TypeError end.

(** [l.every(f)]: stops at the first element where [f] is false or throws. *)
Fixpoint every (f : value → M bool) (l : list value) : M bool :=
  match l with
  | [] => ret true
  | x :: l' => b <- f x ;; if b then every f l' else ret false
  end.

(** [l.map(f)] *)
Fixpoint mapM (f : value → M value) (l : list value) : M (list value) :=
  match l with
  | [] => ret []
  | x :: l' => y <- f x ;; ys <- mapM f l' ;; ret (y :: ys)
  end.

(** ** Primitives of the parser's environment *)

Section Primitives.
Context {JSON : JsonRuntime} (w : world).

(** [const API_KEY = process.env.GEMINI_API_KEY] *)
Definition API_KEY : option jsstring := GEMINI_API_KEY w.

(** [!API_KEY]: the variable is unset, or set to the empty string. *)
Definition noApiKey : bool :=
  match API_KEY with
  | None | Some [] => true
  | Some (_ :: _) => false
  end.

Definition DEFAULT_ENDPOINT : jsstring :=
  js "https://generativelanguage.googleapis.com/v1beta/models/gemini-1.5-flash-latest:generateContent".

(** [process.env.GEMINI_API_ENDPOINT || '...'] *)
Definition API_ENDPOINT : jsstring :=
  match GEMINI_API_ENDPOINT w with
  | Some (c :: e) => c :: e
  | _ => DEFAULT_ENDPOINT
  end.

(** [`${API_ENDPOINT}?key=${API_KEY}`] *)
Definition apiUrl : jsstring :=
  API_ENDPOINT ++ js "?key=" ++ default (js "undefined") API_KEY.

Definition getState : M state := fun s => (Returned s, s).

(** [fs.readFileSync(path, 'utf-8')] *)
Definition readFileSync (path : jsstring) : M jsstring :=
  emit (EvRead path) ;;
  s <- getState ;;
  fromOption FsError (files s !! path).

(** [fs.writeFileSync(path, content)] *)
Definition writeFileSync (path content : jsstring) : M unit :=
  emit (EvWrite path content) ;;
  if writable w path
  then fun s => (Returned tt, stored path content s)
  else throw FsError.

(** [new Date().toISOString().replace(/[:.]/g, '-')] *)
Definition timestampNow : M jsstring :=
  fun s => (Returned (dashTimestamp (clock w (ticks s))), ticked s).

(** [(await axios.post(url, body, headers)).data] *)
Definition post (r : request) : M value :=
  emit (EvPost r) ;;
  match axios_post w r with
  | Rejected resp => throw (AxiosError resp)
  | Resolved data => ret data
  end.

Definition jsonParse (text : jsstring) : M value :=
  fromOption SyntaxError (JSON_parse text).

(** [response.data && response.data.candidates &&
     response.data.candidates[0].content &&
     response.data.candidates[0].content.parts], as a condition *)
Definition hasParts (data : value) : M bool :=
  if negb (truthy data) then ret false
  else
    candidates <- get data k_candidates ;;
    if negb (truthy candidates) then ret false
    else
      first <- get candidates (KIndex 0) ;;
      content <- get first k_content ;;
      if negb (truthy content) then ret false
      else
        parts <- get content k_parts ;;
        ret (truthy parts).

(** [response.data.candidates[0].content.parts[0].text] *)
Definition firstText (data : value) : M value :=
  candidates <- get data k_candidates ;;
  first <- get candidates (KIndex 0) ;;
  content <- get first k_content ;;
  parts <- get content k_parts ;;
  part <- get parts (KIndex 0) ;;
  get part k_text.

(** [typeof sub === 'object' && sub.title], as a condition *)
Definition hasTitle (sub : value) : M bool :=
  if jstype_eqb (typeof sub) TyObject
  then t <- get sub k_title ;; ret (truthy t)
  else ret false.

(** [typeof task === 'object' && task.id !== undefined &&
     typeof task.title === 'string'] *)
Definition hasIdAndTitle (t : value) : M bool :=
  if jstype_eqb (typeof t) TyObject
  then
    i <- get t k_id ;;
    if isUndefined i then ret false
    else
      ti <- get t k_title ;;
      ret (jstype_eqb (typeof ti) TyString)
  else ret false.

(** [`ID ${t.id}: ${t.title} (${t.status})`] joined by line feeds *)
Definition pastTasksSummary (pastTasks : list task) : jsstring :=
  JsString.join [LF]
    (map (fun t => js "ID " ++ JsString.ofN (id t) ++ js ": " ++ title t
                   ++ js " (" ++ statusName (status t) ++ js ")") pastTasks).

(** [{ id: t.id, title: t.title, description: t.description,
      priority: t.priority, dependsOn: t.dependsOn }] *)
Definition promptView (t : task) : value :=
  VObject [ (js "id", VNumber (decimalOfN (id t)));
            (js "title", VString (title t));
            (js "description",
              match description t with Some d => VString d | None => VUndefined end);
            (js "priority", VString (priorityName (priority t)));
            (js "dependsOn", VArray (map (fun d => VNumber (decimalOfN d)) (dependsOn t))) ].

Definition futureTasksString (futureTasks : list task) : jsstring :=
  JSON_stringify (VArray (map promptView futureTasks)).

(** [parentTask.description || 'N/A'] *)
Definition descriptionOrNA (t : task) : jsstring :=
  match description t with
  | Some (c :: d) => c :: d
  | _ => js "N/A"
  end.

End Primitives.

(** ** The original parser, [src/prd_parser.js] *)

Module Original.
Section Parser.
Context {JSON : JsonRuntime} (w : world).

Definition parsePrdWithGemini (prdFilePath : jsstring) : M value :=
  if noApiKey w then
    log LError ;; log LError ;; ret VNull
  else
    read <- tryCatch (c <- readFileSync prdFilePath ;; ret (Some c))
                     (fun error => log LError ;; ret None) ;;
    match read with
    | None => ret VNull
    | Some prdContent =>
        let prompt := Request (apiUrl w) PrdPrompt [prdContent] None in
        log LInfo ;;
        tryCatch
          (data <- post w prompt ;;
           ok <- hasParts data ;;
           if ok then
             text <- firstText data ;;
             raw <- asString text ;;
             let jsonResponse := cleanOriginal raw in
             tryCatch
               (parsedTasks <- jsonParse jsonResponse ;;
                if negb (isArray parsedTasks)
                then throw (PlainError (js "Gemini response is not a JSON array."))
                else log LInfo ;; ret parsedTasks)
               (fun parseError => log LError ;; log LError ;; ret VNull)
           else log LError ;; log LError ;; ret VNull)
          (fun error => log LError ;; ret VNull)
    end.

Definition expandTaskWithGemini (parentTask : task) : M value :=
  if noApiKey w then
    log LError ;; ret VNull
  else
    let prompt :=
      Request (apiUrl w) ExpandPrompt [title parentTask; descriptionOrNA parentTask] None in
    log LInfo ;;
    tryCatch
      (data <- post w prompt ;;
       ok <- hasParts data ;;
       if ok then
         text <- firstText data ;;
         raw <- asString text ;;
         let jsonResponse := cleanOriginal raw in
         tryCatch
           (parsedSubtasks <- jsonParse jsonResponse ;;
            match parsedSubtasks with
            | VArray subs =>
                shaped <- every hasTitle subs ;;
                if negb shaped
                then throw (PlainError
                  (js "Gemini response is not a valid JSON array of {title: string} objects."))
                else
                  log LInfo ;;
                  titles <- mapM (fun sub => get sub k_title) subs ;;
                  ret (VArray titles)
            | _ => throw (PlainError
                  (js "Gemini response is not a valid JSON array of {title: string} objects."))
            end)
           (fun parseError => log LError ;; log LError ;; ret VNull)
       else log LError ;; log LError ;; ret VNull)
      (fun error => log LError ;; ret VNull).

Definition reviseTasksWithGemini (userPrompt : jsstring) (pastTasks futureTasks : list task)
  : M value :=
  if noApiKey w then
    log LError ;; ret VNull
  else
    let prompt :=
      Request (apiUrl w) RevisePrompt
        [pastTasksSummary pastTasks; userPrompt; futureTasksString futureTasks] None in
    log LInfo ;;
    tryCatch
      (data <- post w prompt ;;
       ok <- hasParts data ;;
       if ok then
         text <- firstText data ;;
         raw <- asString text ;;
         let jsonResponse := cleanOriginal raw in
         tryCatch
           (revisedTasks <- jsonParse jsonResponse ;;
            if negb (isArray revisedTasks)
            then throw (PlainError
              (js "Gemini response is not a valid JSON array for revised tasks."))
            else log LInfo ;; ret revisedTasks)
           (fun parseError => log LError ;; log LError ;; ret VNull)
       else log LError ;; log LError ;; ret VNull)
      (fun error => log LError ;; ret VNull).

End Parser.
End Original.

(** ** The enhanced parser

    The revision of the parser that logs through [./logger], saves a backup
    of every accepted answer, validates revised tasks and falls back to line
    splitting for expansions. *)

Module Enhanced.
Section Parser.
Context {JSON : JsonRuntime} (w : world).

(** [`${prdFilePath}.tasks.${timestamp}.json`] *)
Definition prdBackupPath (prdFilePath timestamp : jsstring) : jsstring :=
  prdFilePath ++ js ".tasks." ++ timestamp ++ js ".json".

(** [`subtasks_${parentTask.id}_${timestamp}.json`] *)
Definition subtasksBackupPath (parentId : N) (timestamp : jsstring) : jsstring :=
  js "subtasks_" ++ JsString.ofN parentId ++ js "_" ++ timestamp ++ js ".json".

(** [`subtasks_fallback_${parentTask.id}_${timestamp}.txt`] *)
Definition fallbackBackupPath (parentId : N) (timestamp : jsstring) : jsstring :=
  js "subtasks_fallback_" ++ JsString.ofN parentId ++ js "_" ++ timestamp ++ js ".txt".

(** [`revised_tasks_${timestamp}.json`] *)
Definition revisedBackupPath (timestamp : jsstring) : jsstring :=
  js "revised_tasks_" ++ timestamp ++ js ".json".

(** [line && !line.includes('```')] *)
Definition keepLine (line : jsstring) : bool :=
  truthy (VString line) && negb (JsString.includes fence line).

(** [jsonResponse.split('\n').map(line => line.trim()).filter(...)] *)
Definition fallbackLines (jsonResponse : jsstring) : list jsstring :=
  List.filter keepLine (map JsString.trim (JsString.split LF jsonResponse)).

(** The catch block of the strict parse in [expandTaskWithGemini]: the
    fallback to line splitting. *)
Definition fallbackToLines (parentTask : task) (jsonResponse : jsstring) : M value :=
  log LError ;;
  log LDebug ;;
  log LInfo ;;
  let lines := fallbackLines jsonResponse in
  match lines with
  | _ :: _ =>
      log LInfo ;;
      timestamp <- timestampNow w ;;
      let backupPath := fallbackBackupPath (id parentTask) timestamp in
      writeFileSync w backupPath (JsString.join [LF] lines) ;;
      ret (VArray (map VString lines))
  | [] => ret VNull
  end.

Definition parsePrdWithGemini (prdFilePath : jsstring) : M value :=
  if noApiKey w then
    log LError ;; log LError ;; ret VNull
  else
    read <- tryCatch (c <- readFileSync prdFilePath ;; ret (Some c))
                     (fun error => log LError ;; ret None) ;;
    match read with
    | None => ret VNull
    | Some prdContent =>
        let prompt :=
          Request (apiUrl w) PrdPromptWithTests [prdContent]
            (Some (GenerationConfig (js "0.4") (Some 8192%N))) in
        log LInfo ;;
        tryCatch
          (data <- post w prompt ;;
           ok <- hasParts data ;;
           if ok then
             text <- firstText data ;;
             raw <- asString text ;;
             let jsonResponse := cleanEnhanced raw in
             tryCatch
               (parsedTasks <- jsonParse jsonResponse ;;
                if negb (isArray parsedTasks)
                then throw (PlainError (js "Gemini response is not a JSON array."))
                else
                  timestamp <- timestampNow w ;;
                  let backupPath := prdBackupPath prdFilePath timestamp in
                  writeFileSync w backupPath (JSON_stringify parsedTasks) ;;
                  log LInfo ;;
                  log LInfo ;;
                  ret parsedTasks)
               (fun parseError => log LError ;; log LDebug ;; ret VNull)
           else log LError ;; log LDebug ;; ret VNull)
          (fun error => log LError ;; ret VNull)
    end.

Definition expandTaskWithGemini (parentTask : task) : M value :=
  if noApiKey w then
    log LError ;; ret VNull
  else
    let prompt :=
      Request (apiUrl w) ExpandPromptWithTests
        [title parentTask; descriptionOrNA parentTask]
        (Some (GenerationConfig (js "0.3") None)) in
    log LInfo ;;
    tryCatch
      (data <- post w prompt ;;
       ok <- hasParts data ;;
       if ok then
         text <- firstText data ;;
         raw <- asString text ;;
         let jsonResponse := cleanEnhanced raw in
         tryCatch
           (parsedSubtasks <- jsonParse jsonResponse ;;
            match parsedSubtasks with
            | VArray subs =>
                shaped <- every hasTitle subs ;;
                if negb shaped
                then throw (PlainError
                  (js "Gemini response is not a valid JSON array of {title: string} objects."))
                else
                  timestamp <- timestampNow w ;;
                  let backupPath := subtasksBackupPath (id parentTask) timestamp in
                  writeFileSync w backupPath (JSON_stringify parsedSubtasks) ;;
                  log LInfo ;;
                  log LInfo ;;
                  titles <- mapM (fun sub => get sub k_title) subs ;;
                  ret (VArray titles)
            | _ => throw (PlainError
                  (js "Gemini response is not a valid JSON array of {title: string} objects."))
            end)
           (fun parseError => fallbackToLines parentTask jsonResponse)
       else log LError ;; log LDebug ;; ret VNull)
      (fun error => log LError ;; ret VNull).

Definition reviseTasksWithGemini (userPrompt : jsstring) (pastTasks futureTasks : list task)
  : M value :=
  if noApiKey w then
    log LError ;; ret VNull
  else
    let prompt :=
      Request (apiUrl w) RevisePromptWithTests
        [pastTasksSummary pastTasks; userPrompt; futureTasksString futureTasks]
        (Some (GenerationConfig (js "0.4") None)) in
    log LInfo ;;
    tryCatch
      (data <- post w prompt ;;
       ok <- hasParts data ;;
       if ok then
         text <- firstText data ;;
         raw <- asString text ;;
         let jsonResponse := cleanEnhanced raw in
         tryCatch
           (parsedTasks <- jsonParse jsonResponse ;;
            match parsedTasks with
            | VArray tasks =>
                valid <- every hasIdAndTitle tasks ;;
                if negb valid
                then throw (PlainError
                  (js "Some tasks in the response are missing required fields (id, title)."))
                else
                  timestamp <- timestampNow w ;;
                  let backupPath := revisedBackupPath timestamp in
                  writeFileSync w backupPath (JSON_stringify parsedTasks) ;;
                  log LInfo ;;
                  log LInfo ;;
                  ret parsedTasks
            | _ => throw (PlainError (js "Gemini response is not a JSON array."))
            end)
           (fun parseError => log LError ;; log LDebug ;; ret VNull)
       else log LError ;; log LDebug ;; ret VNull)
      (fun error => log LError ;; ret VNull).

End Parser.
End Enhanced.

(** ** A reference JSON runtime

    The theorems below hold for every [JsonRuntime].  This one follows the
    JSON grammar of ECMA-404 on code units and is used to run the parser on
    concrete responses. *)

Module RefJson.

Definition isJsonSpace (c : N) : bool :=
  ((c =? 32) || (c =? 9) || (c =? 10) || (c =? 13))%N.

Fixpoint skipSpace (s : jsstring) : jsstring :=
  match s with
  | [] => []
  | c :: r => if isJsonSpace c then skipSpace r else s
  end.

Definition isDigit (c : N) : bool := ((48 <=? c) && (c <=? 57))%N.

Definition hexDigit (c : N) : option N :=
  if isDigit c then Some (c - 48)%N
  else if ((97 <=? c) && (c <=? 102))%N then Some (c - 87)%N
  else if ((65 <=? c) && (c <=? 70))%N then Some (c - 55)%N
  else None.

Definition hex4 (a b c d : N) : option N :=
  match hexDigit a, hexDigit b, hexDigit c, hexDigit d with
  | Some x, Some y, Some z, Some t => Some (((x * 16 + y) * 16 + z) * 16 + t)%N
  | _, _, _, _ => None
  end.

(** The code unit of a one-letter escape. *)
Definition unescape (e : N) : option N :=
  if ((e =? 34) || (e =? 92) || (e =? 47))%N then Some e
  else if (e =? 98)%N then Some 8%N
  else if (e =? 102)%N then Some 12%N
  else if (e =? 110)%N then Some 10%N
  else if (e =? 114)%N then Some 13%N
  else if (e =? 116)%N then Some 9%N
  else None.

Definition consFst {B} (c : N) (p : jsstring * B) : jsstring * B := (c :: p.1, p.2).

(** A string literal after its opening quote: the string and the rest. *)
Fixpoint parseStringBody (s : jsstring) : option (jsstring * jsstring) :=
  match s with
  | [] => None
  | c :: r =>
      if (c =? 34)%N then Some ([], r)
      else if (c =? 92)%N then
        match r with
        | [] => None
        | e :: r1 =>
            if (e =? 117)%N then
              match r1 with
              | h1 :: h2 :: h3 :: h4 :: r2 =>
                  match hex4 h1 h2 h3 h4 with
                  | Some u => consFst u <$> parseStringBody r2
                  | None => None
                  end
              | _ => None
              end
            else
              match unescape e with
              | Some u => consFst u <$> parseStringBody r1
              | None => None
              end
        end
      else if (c <? 32)%N then None
      else consFst c <$> parseStringBody r
  end.

(** The longest run of digits at the start of [s], and the rest. *)
Fixpoint takeDigits (s : jsstring) : jsstring * jsstring :=
  match s with
  | c :: r => if isDigit c then consFst c (takeDigits r) else ([], s)
  | [] => ([], [])
  end.

Definition digitsValue (ds : jsstring) : N :=
  fold_left (fun acc d => (acc * 10 + (d - 48))%N) ds 0%N.

(** [int]: a single zero, or digits that do not start with a zero. *)
Definition validInt (ds : jsstring) : bool :=
  match ds with
  | [] => false
  | [_] => true
  | d :: _ :: _ => negb (d =? 48)%N
  end.

Definition parseFraction (s : jsstring) : option (jsstring * jsstring) :=
  match s with
  | c :: r =>
      if (c =? 46)%N then
        match takeDigits r with
        | ([], _) => None
        | (ds, r') => Some (ds, r')
        end
      else Some ([], s)
  | [] => Some ([], [])
  end.

Definition parseExponent (s : jsstring) : option (Z * jsstring) :=
  match s with
  | c :: r =>
      if ((c =? 101) || (c =? 69))%N then
        let '(neg, r1) :=
          match r with
          | sg :: r' =>
              if (sg =? 45)%N then (true, r')
              else if (sg =? 43)%N then (false, r') else (false, r)
          | [] => (false, r)
          end in
        match takeDigits r1 with
        | ([], _) => None
        | (ds, r2) =>
            let e := Z.of_N (digitsValue ds) in
            Some (if neg then (- e)%Z else e, r2)
        end
      else Some (0%Z, s)
  | [] => Some (0%Z, [])
  end.

Definition parseNumber (s : jsstring) : option (decimal * jsstring) :=
  let '(neg, s1) :=
    match s with
    | c :: r => if (c =? 45)%N then (true, r) else (false, s)
    | [] => (false, s)
    end in
  let '(ints, s2) := takeDigits s1 in
  if validInt ints then
    match parseFraction s2 with
    | Some (frac, s3) =>
        match parseExponent s3 with
        | Some (e, s4) =>
            Some (Decimal neg (digitsValue (ints ++ frac)) (e - Z.of_nat (length frac)), s4)
        | None => None
        end
    | None => None
    end
  else None.

Definition parseLiteral (s : jsstring) : option (value * jsstring) :=
  match JsString.stripPrefix (js "null") s with
  | Some r => Some (VNull, r)
  | None =>
      match JsString.stripPrefix (js "true") s with
      | Some r => Some (VBool true, r)
      | None =>
          match JsString.stripPrefix (js "false") s with
          | Some r => Some (VBool false, r)
          | None =>
              match parseNumber s with
              | Some (n, r) => Some (VNumber n, r)
              | None => None
              end
          end
      end
  end.

(** A later member of the same name replaces the value and keeps the place. *)
Fixpoint setField (k : jsstring) (v : value) (fields : list (jsstring * value))
  : list (jsstring * value) :=
  match fields with
  | [] => [(k, v)]
  | (k', v') :: rest =>
      if jsstring_eqb k' k then (k', v) :: rest else (k', v') :: setField k v rest
  end.

Definition objectOf (members : list (jsstring * value)) : value :=
  VObject (fold_left (fun acc m => setField m.1 m.2 acc) members []).

Fixpoint parseValue (fuel : nat) (s : jsstring) : option (value * jsstring) :=
  match fuel with
  | O => None
  | S f =>
      match skipSpace s with
      | [] => None
      | c :: r =>
          if (c =? 91)%N then
            match skipSpace r with
            | c' :: r' =>
                if (c' =? 93)%N then Some (VArray [], r')
                else
                  match parseElements f r with
                  | Some (items, rest) => Some (VArray items, rest)
                  | None => None
                  end
            | [] => None
            end
          else if (c =? 123)%N then
            match skipSpace r with
            | c' :: r' =>
                if (c' =? 125)%N then Some (VObject [], r')
                else
                  match parseMembers f r with
                  | Some (members, rest) => Some (objectOf members, rest)
                  | None => None
                  end
            | [] => None
            end
          else if (c =? 34)%N then
            match parseStringBody r with
            | Some (str, rest) => Some (VString str, rest)
            | None => None
            end
          else parseLiteral (c :: r)
      end
  end
with parseElements (fuel : nat) (s : jsstring) : option (list value * jsstring) :=
  match fuel with
  | O => None
  | S f =>
      match parseValue f s with
      | None => None
      | Some (v, r) =>
          match skipSpace r with
          | c :: r' =>
              if (c =? 44)%N then
                match parseElements f r' with
                | Some (vs, rest) => Some (v :: vs, rest)
                | None => None
                end
              else if (c =? 93)%N then Some ([v], r')
              else None
          | [] => None
          end
      end
  end
with parseMembers (fuel : nat) (s : jsstring)
  : option (list (jsstring * value) * jsstring) :=
  match fuel with
  | O => None
  | S f =>
      match skipSpace s with
      | c :: r =>
          if (c =? 34)%N then
            match parseStringBody r with
            | Some (k, r1) =>
                match skipSpace r1 with
                | c1 :: r2 =>
                    if (c1 =? 58)%N then
                      match parseValue f r2 with
                      | Some (v, r3) =>
                          match skipSpace r3 with
                          | c3 :: r4 =>
                              if (c3 =? 44)%N then
                                match parseMembers f r4 with
                                | Some (ms, rest) => Some ((k, v) :: ms, rest)
                                | None => None
                                end
                              else if (c3 =? 125)%N then Some ([(k, v)], r4)
                              else None
                          | [] => None
                          end
                      | None => None
                      end
                    else None
                | [] => None
                end
            | None => None
            end
          else None
      | [] => None
      end
  end.

(** [JSON.parse(text)] *)
Definition parse (text : jsstring) : option value :=
  match parseValue (2 * length text + 2) text with
  | Some (v, rest) =>
      match skipSpace rest with
      | [] => Some v
      | _ :: _ => None
      end
  | None => None
  end.

(** *** Serialisation, [JSON.stringify(v, null, 2)] *)

Definition hexChar (d : N) : N := if (d <? 10)%N then (48 + d)%N else (87 + d)%N.

(** [\uXXXX] *)
Definition unicodeEscape (c : N) : jsstring :=
  [92; 117; hexChar (c / 4096 mod 16); hexChar (c / 256 mod 16);
   hexChar (c / 16 mod 16); hexChar (c mod 16)]%N.

Definition isLeadSurrogate (c : N) : bool := ((55296 <=? c) && (c <=? 56319))%N.
Definition isTrailSurrogate (c : N) : bool := ((56320 <=? c) && (c <=? 57343))%N.

Definition quoteUnit (c : N) : jsstring :=
  if (c =? 34)%N then [92; 34]%N
  else if (c =? 92)%N then [92; 92]%N
  else if (c =? 8)%N then [92; 98]%N
  else if (c =? 12)%N then [92; 102]%N
  else if (c =? 10)%N then [92; 110]%N
  else if (c =? 13)%N then [92; 114]%N
  else if (c =? 9)%N then [92; 116]%N
  else if (c <? 32)%N then unicodeEscape c
  else [c].

(** The body of a quoted string; a surrogate that has no partner is
    written as an escape. *)
Fixpoint quoteBody (s : jsstring) : jsstring :=
  match s with
  | [] => []
  | c :: r =>
      if isLeadSurrogate c then
        match r with
        | d :: r' =>
            if isTrailSurrogate d then c :: d :: quoteBody r'
            else unicodeEscape c ++ quoteBody r
        | [] => unicodeEscape c
        end
      else if isTrailSurrogate c then unicodeEscape c ++ quoteBody r
      else quoteUnit c ++ quoteBody r
  end.

Definition quote (s : jsstring) : jsstring := [34%N] ++ quoteBody s ++ [34%N].

(** Drops the zeros at the end of a mantissa with a negative exponent. *)
Fixpoint normalise (fuel : nat) (m : N) (e : Z) : N * Z :=
  match fuel with
  | O => (m, e)
  | S f =>
      if ((e <? 0)%Z && (m mod 10 =? 0)%N && negb (m =? 0)%N)%bool
      then normalise f (m / 10)%N (e + 1)%Z
      else (m, e)
  end.

(** A number in positional notation. *)
Definition showNumber (n : decimal) : jsstring :=
  if (dec_mant n =? 0)%N then js "0"
  else
    let '(m, e) := normalise (Z.to_nat (- dec_exp n)) (dec_mant n) (dec_exp n) in
    let ds := JsString.ofN m in
    let sign := if dec_neg n then js "-" else [] in
    if (0 <=? e)%Z then sign ++ ds ++ replicate (Z.to_nat e) 48%N
    else
      let k := Z.to_nat (- e) in
      if (k <? length ds)%nat
      then sign ++ take (length ds - k) ds ++ js "." ++ drop (length ds - k) ds
      else sign ++ js "0." ++ replicate (k - length ds) 48%N ++ ds.

Definition spaces (n : nat) : jsstring := replicate n 32%N.

(** [open], the pieces on lines of their own at depth [indent + 2], then
    [close] at depth [indent]. *)
Definition block (indent : nat) (open close : jsstring) (pieces : list jsstring)
  : jsstring :=
  match pieces with
  | [] => open ++ close
  | _ :: _ =>
      open ++ [LF] ++ spaces (indent + 2)
      ++ JsString.join ([44%N; LF] ++ spaces (indent + 2)) pieces
      ++ [LF] ++ spaces indent ++ close
  end.

(** [None] for [undefined], which has no JSON text. *)
Fixpoint stringifyAt (indent : nat) (v : value) : option jsstring :=
  match v with
  | VUndefined => None
  | VNull => Some (js "null")
  | VBool true => Some (js "true")
  | VBool false => Some (js "false")
  | VNumber n => Some (showNumber n)
  | VString s => Some (quote s)
  | VArray items =>
      Some (block indent (js "[") (js "]")
              (map (fun x => default (js "null") (stringifyAt (indent + 2) x)) items))
  | VObject fields =>
      Some (block indent (js "{") (js "}")
              ((fix members (fs : list (jsstring * value)) : list jsstring :=
                  match fs with
                  | [] => []
                  | (k, x) :: rest =>
                      match stringifyAt (indent + 2) x with
                      | Some t => (quote k ++ js ": " ++ t) :: members rest
                      | None => members rest
                      end
                  end) fields))
  end.

Definition stringify (v : value) : jsstring :=
  default (js "undefined") (stringifyAt 0 v).

End RefJson.

Definition refJson : JsonRuntime :=
  {| JSON_parse := RefJson.parse; JSON_stringify := RefJson.stringify |}.

(** A literal in which an apostrophe stands for a double quote. *)
Definition jsq (s : String.string) : jsstring :=
  map (fun c => if (c =? 39)%N then 34%N else c) (js s).

(** ** The task engine

    The engine ([core.js]: store, dependency resolver, next-task selector,
    revision merger) is not among the sources; its operations are modelled
    from sections 4.2, 4.4 and 4.5 of the specification. *)

Module Engine.

(** The Task Store: the ordered sequence of Task records. *)
Abbreviation store := (list task).

(** Modelled from the spec: the initial status [todo] of the missing
    Status Lifecycle, as a test. *)
Definition isTodo (t : task) : bool :=
  match status t with Todo => true | _ => false end.

(** Modelled from the spec: the terminal status [done] of the missing
    Status Lifecycle, as a test. *)
Definition isDone (t : task) : bool :=
  match status t with Done => true | _ => false end.

(** Modelled from the spec: the resolution of a dependency identifier by
    the missing Dependency Resolver; the identifier [d] resolves to a Task
    whose status is [done]. *)
Definition resolvesToDone (s : store) (d : N) : bool :=
  existsb (fun u => (id u =? d)%N && isDone u) s.

(** Modelled from the spec: [isSatisfied(task, store)] of the missing
    Dependency Resolver, true iff every identifier in the task's dependency
    list resolves to a Task whose status is [done]. *)
Definition isSatisfied (t : task) (s : store) : bool :=
  forallb (resolvesToDone s) (dependsOn t).

(** Modelled from the spec: the fixed rank [high=3, medium=2, low=1] of the
    missing Next-Task Selector. *)
Definition rank (p : Priority) : nat :=
  match p with High => 3 | Medium => 2 | Low => 1 end.

(** Modelled from the spec: the order of the missing Next-Task Selector,
    priority descending, then identifier ascending. *)
Definition precedes (a b : task) : Prop :=
  rank (priority b) < rank (priority a) ∨ (rank (priority a) = rank (priority b) ∧ (id a ≤ id b)%N).

#[global] Instance precedes_dec a b : Decision (precedes a b).
Proof. unfold precedes. apply _. Defined.

(** Modelled from the spec: the filter of the missing Next-Task Selector,
    the Tasks with status [todo] that are satisfied. *)
Definition candidates (s : store) : list task :=
  List.filter (fun t => isTodo t && isSatisfied t s) s.

(** Modelled from the spec: [selectNext(store)] of the missing Next-Task
    Selector; filter, order by priority descending then identifier
    ascending, return the first element or none. *)
Definition selectNext (s : store) : option task :=
  head (merge_sort precedes (candidates s)).

(** *** Revision Merger *)

(** Modelled from the spec: [Result<Store, RevisionError>] of the missing
    Revision Merger. *)
Inductive result (A E : Type) :=
| Ok (a : A)
| Err (e : E).
Arguments Ok {A E} a.
Arguments Err {A E} e.

(** Modelled from the spec: a violated reference of the missing Revision
    Merger, the proposed task and the dependency identifier that resolves
    nowhere; the IntegrityError lists them. *)
Record reference := Reference { ref_task : N; ref_dep : N }.

(** Modelled from the spec: the error of the missing Revision Merger, an
    IntegrityError with every violated reference. *)
Inductive RevisionError := IntegrityError (violated : list reference).

(** Modelled from the spec: the split of the missing Revision Merger,
    [past] holds the tasks whose identifier is below [fromId]; the others
    are the future segment, which a merge replaces. *)
Definition past (s : store) (fromId : N) : list task :=
  List.filter (fun t => (id t <? fromId)%N) s.

(** Modelled from the spec: whether an identifier resolves into a list of
    tasks, for the missing Revision Merger. *)
Definition hasId (l : list task) (d : N) : bool :=
  existsb (fun t => (id t =? d)%N) l.

(** Modelled from the spec: a dependency identifier must resolve into
    [past] or into the proposed set itself. *)
Definition resolves (s : store) (fromId : N) (proposed : list task) (d : N) : bool :=
  hasId (past s fromId) d || hasId proposed d.

(** Modelled from the spec: the validation of the missing Revision
    Merger, which collects every violated reference of the proposal. *)
Definition violations (s : store) (fromId : N) (proposed : list task) : list reference :=
  flat_map
    (fun t =>
       map (Reference (id t))
           (List.filter (fun d => negb (resolves s fromId proposed d)) (dependsOn t)))
    proposed.

(** Modelled from the spec: [mergeRevision(store, fromId,
    proposedFutureTasks)] of the missing Revision Merger; on success the
    future segment is replaced wholesale by the proposal. *)
Definition mergeRevision (s : store) (fromId : N) (proposed : list task)
  : result store RevisionError :=
  match violations s fromId proposed with
  | [] => Ok (past s fromId ++ proposed)
  | v :: vs => Err (IntegrityError (v :: vs))
  end.

(** Modelled from the spec: the store after the merge command; a failed
    merge leaves it as it was. *)
Definition storeAfter (s : store) (r : result store RevisionError) : store :=
  match r with
  | Ok s' => s'
  | Err _ => s
  end.

End Engine.

(** ** Conditions, read as pure functions

    Pure readings of the conditions the parser evaluates step by step; the
    lemmas of Part II relate each of them to the code above. *)

(** The answer of the service, as the parser sees it: the condition on the
    response is false ([NoParts], the parser's "unexpected response
    structure" branch), a property read or the [replace] call throws a
    TypeError ([Broken]), or there is a response text. *)
Inductive answer :=
| NoParts
| Broken
| Text (raw : jsstring).

Definition classify (data : value) : answer :=
  if negb (truthy data) then NoParts
  else
    match getProp data k_candidates with
    | None => Broken
    | Some candidates =>
        if negb (truthy candidates) then NoParts
        else
          match getProp candidates (KIndex 0) with
          | None => Broken
          | Some first =>
              match getProp first k_content with
              | None => Broken
              | Some content =>
                  if negb (truthy content) then NoParts
                  else
                    match getProp content k_parts with
                    | None => Broken
                    | Some parts =>
                        if negb (truthy parts) then NoParts
                        else
                          match getProp parts (KIndex 0) with
                          | None => Broken
                          | Some part =>
                              match getProp part k_text with
                              | Some (VString raw) => Text raw
                              | _ => Broken
                              end
                          end
                    end
              end
          end
    end.

(** An object with a truthy [title] field. *)
Definition isTitledObject (v : value) : bool :=
  match v with
  | VObject fields => truthy (lookupField (js "title") fields)
  | _ => false
  end.

(** The [title] value of an element. *)
Definition titleOf (v : value) : value :=
  match v with
  | VObject fields => lookupField (js "title") fields
  | _ => VUndefined
  end.

(** An object carrying an identifier and a string title. *)
Definition hasIdAndStringTitle (v : value) : bool :=
  match v with
  | VObject fields =>
      negb (isUndefined (lookupField (js "id") fields))
      && jstype_eqb (typeof (lookupField (js "title") fields)) TyString
  | _ => false
  end.

(** The shape [{title, description, priority, dependsOn}] the interface of
    [generateTasksFromDocument] promises: a string title, a string
    description, a string priority and an array of dependencies. *)
Definition hasTaskShape (v : value) : bool :=
  match v with
  | VObject fields =>
      jstype_eqb (typeof (lookupField (js "title") fields)) TyString
      && jstype_eqb (typeof (lookupField (js "description") fields)) TyString
      && jstype_eqb (typeof (lookupField (js "priority") fields)) TyString
      && isArray (lookupField (js "dependsOn") fields)
  | _ => false
  end.

(** The requests the parsers send. *)
Definition prdRequest (w : world) (enhanced : bool) (prdContent : jsstring) : request :=
  if enhanced
  then Request (apiUrl w) PrdPromptWithTests [prdContent]
         (Some (GenerationConfig (js "0.4") (Some 8192%N)))
  else Request (apiUrl w) PrdPrompt [prdContent] None.

Definition expandRequest (w : world) (enhanced : bool) (parentTask : task) : request :=
  if enhanced
  then Request (apiUrl w) ExpandPromptWithTests
         [title parentTask; descriptionOrNA parentTask]
         (Some (GenerationConfig (js "0.3") None))
  else Request (apiUrl w) ExpandPrompt [title parentTask; descriptionOrNA parentTask] None.

Definition reviseRequest {JSON : JsonRuntime} (w : world) (enhanced : bool)
    (userPrompt : jsstring) (pastTasks futureTasks : list task) : request :=
  if enhanced
  then Request (apiUrl w) RevisePromptWithTests
         [pastTasksSummary pastTasks; userPrompt; futureTasksString futureTasks]
         (Some (GenerationConfig (js "0.4") None))
  else Request (apiUrl w) RevisePrompt
         [pastTasksSummary pastTasks; userPrompt; futureTasksString futureTasks] None.

(** The result of a run, and the store of files after it. *)
Definition resultOf {A} (r : outcome A * state) : outcome A := r.1.
Definition filesAfter {A} (r : outcome A * state) : gmap jsstring jsstring := files r.2.
Definition traceAfter {A} (r : outcome A * state) : list event := trace r.2.

(** An event that is no more than a diagnostic message. *)
Definition isLog (e : event) : bool :=
  match e with EvLog _ => true | _ => false end.

(** ** The six functions under one name *)

Inductive call :=
| ParsePrd (prdFilePath : jsstring)
| ExpandTask (parentTask : task)
| ReviseTasks (userPrompt : jsstring) (pastTasks futureTasks : list task).

(** The call [c] on the original ([enhanced = false]) or on the enhanced
    parser. *)
Definition invoke {JSON : JsonRuntime} (w : world) (enhanced : bool) (c : call) : M value :=
  match c with
  | ParsePrd p =>
      if enhanced then Enhanced.parsePrdWithGemini w p
      else Original.parsePrdWithGemini w p
  | ExpandTask t =>
      if enhanced then Enhanced.expandTaskWithGemini w t
      else Original.expandTaskWithGemini w t
  | ReviseTasks u p f =>
      if enhanced then Enhanced.reviseTasksWithGemini w u p f
      else Original.reviseTasksWithGemini w u p f
  end.

(** *** Arguments that are missing

    JavaScript lets a caller pass [null] or [undefined] where a function
    expects a task or a list of tasks.  Both versions build the prompt
    after the test of the key and before their [try]:
    [`${parentTask.title}`] in [expandTaskWithGemini],
    [pastTasks.map(...)] and [futureTasks.map(...)] in
    [reviseTasksWithGemini].  On a missing argument that statement throws a
    TypeError, which no handler of the function catches.  In an [entry],
    [None] is such a missing argument. *)
Inductive entry :=
| EnterParsePrd (prdFilePath : jsstring)
| EnterExpandTask (parentTask : option task)
| EnterReviseTasks (userPrompt : jsstring) (pastTasks futureTasks : option (list task)).

(** The call of an entry whose arguments are all given. *)
Definition given (e : entry) : option call :=
  match e with
  | EnterParsePrd prdFilePath => Some (ParsePrd prdFilePath)
  | EnterExpandTask (Some parentTask) => Some (ExpandTask parentTask)
  | EnterReviseTasks userPrompt (Some pastTasks) (Some futureTasks) =>
      Some (ReviseTasks userPrompt pastTasks futureTasks)
  | EnterExpandTask None | EnterReviseTasks _ _ _ => None
  end.

(** The entry [e] on the original or on the enhanced parser.  With a
    missing argument the function still returns [null] when there is no
    key, as that test comes first; otherwise the construction of the prompt
    throws, before anything is logged, sent or written. *)
Definition enter {JSON : JsonRuntime} (w : world) (enhanced : bool) (e : entry) : M value :=
  match given e with
  | Some c => invoke w enhanced c
  | None => if noApiKey w then log LError ;; ret VNull else throw TypeError
  end.

(** The cleanup each version applies to the response text. *)
Definition clean (enhanced : bool) : jsstring → jsstring :=
  if enhanced then cleanEnhanced else cleanOriginal.

(** The request a call sends, once its input file (if any) is read. *)
Definition requestOf {JSON : JsonRuntime} (w : world) (enhanced : bool) (s : state) (c : call)
  : option request :=
  match c with
  | ParsePrd p => prdRequest w enhanced <$> files s !! p
  | ExpandTask t => Some (expandRequest w enhanced t)
  | ReviseTasks u p f => Some (reviseRequest w enhanced u p f)
  end.

(** The failure modes of a collaborator. *)
Inductive mode :=
| MissingCredential
| UnreadableInput
| TransportError
| UnexpectedStructure
| NotAJsonArray.

Inductive failure {JSON : JsonRuntime} (w : world) (enhanced : bool) (s : state) (c : call)
  : mode → Prop :=
| fail_credential :
    noApiKey w = true →
    failure w enhanced s c MissingCredential
| fail_input path :
    c = ParsePrd path → files s !! path = None →
    failure w enhanced s c UnreadableInput
| fail_transport req resp :
    requestOf w enhanced s c = Some req → axios_post w req = Rejected resp →
    failure w enhanced s c TransportError
| fail_structure req data :
    requestOf w enhanced s c = Some req → axios_post w req = Resolved data →
    (∀ raw, classify data ≠ Text raw) →
    failure w enhanced s c UnexpectedStructure
| fail_array req data raw :
    requestOf w enhanced s c = Some req → axios_post w req = Resolved data →
    classify data = Text raw →
    (∀ items, JSON_parse (clean enhanced raw) ≠ Some (VArray items)) →
    failure w enhanced s c NotAJsonArray.

(** A run that fails without input or output: the result is [null], no file
    changes, and nothing but diagnostics is recorded. *)
Definition failsWithoutIO (s : state) (r : outcome value * state) : Prop :=
  resultOf r = Returned VNull
  ∧ filesAfter r = files s
  ∧ ∃ logs, traceAfter r = trace s ++ logs ∧ forallb isLog logs = true.

(** *** Concrete worlds for the examples *)

(** The response body [{candidates: [{content: {parts: [{text}]}}]}]. *)
Definition answerWith (text : jsstring) : value :=
  VObject [(js "candidates",
            VArray [VObject [(js "content",
                              VObject [(js "parts",
                                        VArray [VObject [(js "text", VString text)]])])]])].

(** A world with a key, a service that answers [text] to every request, a
    clock stopped at one instant, and a disk on which exactly the paths
    accepted by [canWrite] can be written. *)
Definition worldAnswering (text : jsstring) (canWrite : jsstring → bool) : world :=
  World (Some (js "secret")) None (fun _ => Resolved (answerWith text))
        (fun _ => js "2024-01-02T03:04:05.678Z") canWrite.

(** A world without a key. *)
Definition worldWithoutKey : world :=
  World None None (fun _ => Rejected None) (fun _ => js "2024-01-02T03:04:05.678Z")
        (fun _ => true).

(** A world whose service is unreachable. *)
Definition worldOffline : world :=
  World (Some (js "secret")) None (fun _ => Rejected None)
        (fun _ => js "2024-01-02T03:04:05.678Z") (fun _ => true).

(** A disk holding one requirements document and the task store. *)
Definition someDisk : state :=
  State (<[js "prd.txt" := js "Build a game"]> (<[js "tasks.json" := js "[]"]> ∅)) [] 0.

Definition someTask : task :=
  Task 4 (js "Implement turn handling") None High Todo [] [].

(** The persisted task store.  The constant of [core.js] that names it is
    not among the sources; the workflow rules of the repository
    ([.cursor/rules/task_manager_workflow.mdc]) call the file [tasks.json]. *)
Definition TASKS_FILE : jsstring := js "tasks.json".

(** A task of the scenarios of the specification. *)
Definition taskWith (i : N) (p : Priority) (st : Status) (deps : list N) : task :=
  Task i (js "task") None p st deps [].

(** ** Shapes of response texts *)

(** The text ["```\n<body>\n```"], fenced without the word [json]. *)
Definition fencedPlain (body : jsstring) : jsstring :=
  fence ++ [LF] ++ body ++ [LF] ++ fence.

(** The text ["```json\n<body>"], a fence that is opened and never closed. *)
Definition unclosedJson (body : jsstring) : jsstring :=
  fence_json ++ [LF] ++ body.

(** A text of white space only. *)
Definition isBlank (text : jsstring) : bool := forallb JsString.isWhiteSpace text.

(** Events of a run, by kind. *)
Definition isPost (e : event) : bool :=
  match e with EvPost _ => true | _ => false end.

(* ===================================================================== *)
(** * Part II. Lemmas and theorems *)
(* ===================================================================== *)

(** ** Strings *)

Section StringFacts.
Import JsString.

Lemma stripPrefix_app p s : stripPrefix p (p ++ s) = Some s.
Proof.
  induction p as [|a p IH]; simpl; [done|].
  by rewrite N.eqb_refl.
Qed.

Lemma stripPrefix_Some p s r : stripPrefix p s = Some r → s = p ++ r.
Proof.
  revert s; induction p as [|a p IH]; intros [|b s]; simpl; try congruence.
  destruct (N.eqb_spec a b) as [->|]; [|done].
  intros H. by rewrite (IH _ H).
Qed.

Lemma stripPrefix_None p s : stripPrefix p s = None ↔ startsWith p s = false.
Proof.
  revert s; induction p as [|a p IH]; intros [|b s]; simpl; try done.
  destruct (a =? b)%N; simpl; [apply IH|done].
Qed.

Lemma startsWith_app_l p q s : startsWith (p ++ q) s = true → startsWith p s = true.
Proof.
  revert s; induction p as [|a p IH]; intros [|b s]; simpl; try done.
  rewrite !andb_true_iff. intros [? ?]. eauto.
Qed.

(** Skipping [k] units is dropping them. *)
Lemma replaceAllFrom_skip p r k s :
  replaceAllFrom p r k s = replaceAllFrom p r 0 (drop k s).
Proof.
  revert s; induction k as [|k IH]; intros s; [by rewrite drop_0|].
  destruct s as [|c s]; simpl; [done|]. apply IH.
Qed.

Lemma startsWith_app p s : startsWith p (p ++ s) = true.
Proof. induction p as [|a p IH]; simpl; [done|]. by rewrite N.eqb_refl. Qed.

(** A match at the start is replaced, and the scan resumes after it. *)
Lemma replaceAll_match p r t :
  p ≠ [] → replaceAll p r (p ++ t) = r ++ replaceAll p r t.
Proof.
  intros Hp. destruct p as [|a p]; [done|]. unfold replaceAll.
  change ((a :: p) ++ t) with (a :: (p ++ t)). cbn [replaceAllFrom].
  change (a :: (p ++ t)) with ((a :: p) ++ t). rewrite startsWith_app.
  rewrite replaceAllFrom_skip. f_equal. f_equal.
  cbn [length]. rewrite Nat.sub_1_r. cbn [Nat.pred]. by rewrite drop_app_length.
Qed.

(** Where the pattern starts nowhere inside [a], [a] is copied. *)
Lemma replaceAll_copy p r a t :
  (∀ i, i < length a → startsWith p (drop i a ++ t) = false) →
  replaceAll p r (a ++ t) = a ++ replaceAll p r t.
Proof.
  unfold replaceAll. induction a as [|c a IH]; intros Hno; [done|].
  change ((c :: a) ++ t) with (c :: (a ++ t)). cbn [replaceAllFrom].
  change (c :: (a ++ t)) with (drop 0 (c :: a) ++ t).
  rewrite (Hno 0) by (simpl; lia). simpl. f_equal.
  apply IH. intros i Hi. apply (Hno (S i)). simpl; lia.
Qed.

Lemma cutAtFirst_here p s r : stripPrefix p s = Some r → cutAtFirst p s = Some ([], r).
Proof. intros H. destruct s; simpl; by rewrite H. Qed.

Lemma cutAtFirst_end p a t :
  (∀ i, i < length a → startsWith p (drop i a ++ p ++ t) = false) →
  cutAtFirst p (a ++ p ++ t) = Some (a, t).
Proof.
  induction a as [|c a IH]; intros Hno.
  - apply cutAtFirst_here. apply (stripPrefix_app p t).
  - change ((c :: a) ++ p ++ t) with (c :: (a ++ p ++ t)). cbn [cutAtFirst].
    assert (stripPrefix p (c :: a ++ p ++ t) = None) as ->.
    { apply stripPrefix_None. apply (Hno 0). simpl; lia. }
    rewrite IH; [done|]. intros i Hi. apply (Hno (S i)). simpl; lia.
Qed.

(** A text without a fence, followed by a line feed, has no fence that
    starts inside it. *)
Lemma fence_free_before_LF body t i :
  includes fence body = false →
  startsWith fence (drop i body ++ LF :: t) = false.
Proof.
  revert i. induction body as [|a body IH]; intros i Hfree.
  - by rewrite drop_nil.
  - cbn [includes] in Hfree. apply orb_false_iff in Hfree as [Hhere Hrest].
    destruct i as [|i]; [|by apply IH].
    rewrite drop_0. clear IH Hrest.
    destruct body as [|b [|c body]]; simpl in *.
    + by rewrite andb_false_r.
    + by rewrite !andb_false_r.
    + done.
Qed.

Lemma trimStart_ws c s : isWhiteSpace c = true → trimStart (c :: s) = trimStart s.
Proof. intros H. simpl. by rewrite H. Qed.

Lemma trimStart_snoc_ws s c :
  isWhiteSpace c = true →
  trimStart (s ++ [c]) = match trimStart s with [] => [] | x => x ++ [c] end.
Proof.
  intros Hc. induction s as [|a s IH]; simpl; [by rewrite Hc|].
  destruct (isWhiteSpace a); done.
Qed.

Lemma trimEnd_snoc_ws s c : isWhiteSpace c = true → trimEnd (s ++ [c]) = trimEnd s.
Proof.
  intros Hc. unfold trimEnd. rewrite rev_app_distr. simpl. by rewrite Hc.
Qed.

(** Line feeds around a text do not survive [trim]. *)
Lemma trim_between_LF body : trim (LF :: body ++ [LF]) = trim body.
Proof.
  unfold trim. rewrite trimStart_ws by done.
  rewrite trimStart_snoc_ws by done.
  destruct (trimStart body) as [|x r] eqn:E; [done|].
  by rewrite trimEnd_snoc_ws.
Qed.

Lemma replaceFencedFrom_all k s : length s ≤ k → replaceFencedFrom k s = [].
Proof.
  revert k; induction s as [|c s IH]; intros k Hk; [done|].
  simpl in Hk. destruct k as [|k]; [lia|]. simpl. apply IH. lia.
Qed.

(** A fenced block at the start is replaced by its body. *)
Lemma replaceFenced_match c s body rest :
  matchFenced (c :: s) = Some (body, rest) →
  replaceFenced (c :: s) = body ++ replaceFencedFrom (length (c :: s) - length rest - 1) s.
Proof. intros H. unfold replaceFenced. cbn [replaceFencedFrom]. by rewrite H. Qed.

Lemma matchOpen_json t : matchOpen (fence_json ++ [LF] ++ t) = Some t.
Proof. reflexivity. Qed.

End StringFacts.

Lemma cleanOriginal_fenced body :
  JsString.includes fence body = false →
  cleanOriginal (fencedJson body) = JsString.trim body.
Proof.
  intros Hfree. unfold cleanOriginal, fencedJson.
  rewrite replaceAll_match by done. cbn [app].
  change (LF :: body ++ LF :: fence) with ((LF :: body) ++ LF :: fence).
  rewrite replaceAll_copy.
  - change (JsString.replaceAll fence_json [] (LF :: fence)) with (LF :: fence).
    rewrite replaceAll_copy.
    + change (JsString.replaceAll fence [] (LF :: fence)) with [LF].
      apply trim_between_LF.
    + intros [|i] _; [done|]. cbn [drop]. by apply fence_free_before_LF.
  - intros [|i] _; [done|]. cbn [drop].
    destruct (JsString.startsWith _ _) eqn:E; [|done].
    apply (startsWith_app_l fence json_word) in E.
    by rewrite fence_free_before_LF in E.
Qed.

Lemma replaceFenced_fenced body :
  JsString.includes fence body = false →
  replaceFenced (fencedJson body) = body.
Proof.
  intros Hfree.
  assert (matchFenced (fencedJson body) = Some (body, [])) as Hm.
  { unfold matchFenced, fencedJson. rewrite matchOpen_json.
    change (body ++ [LF] ++ fence) with (body ++ (LF :: fence) ++ []).
    apply cutAtFirst_end. intros i Hi.
    destruct (drop i body) as [|c r] eqn:E.
    { apply (f_equal length) in E. rewrite length_drop in E. simpl in E. lia. }
    assert (r = drop (S i) body) as ->.
    { replace (S i) with (i + 1) by lia. by rewrite <-drop_drop, E. }
    change ((c :: drop (S i) body) ++ (LF :: fence) ++ [])
      with (c :: (drop (S i) body ++ LF :: fence)).
    change (LF :: fence) with ([LF] ++ fence).
    cbn [app JsString.startsWith]. destruct (LF =? c)%N; [|done].
    cbn [andb]. by apply fence_free_before_LF. }
  unfold fencedJson in *. change (fence_json ++ ?t) with (96%N :: (drop 1 fence_json ++ t)) in *.
  rewrite (replaceFenced_match _ _ _ _ Hm).
  rewrite replaceFencedFrom_all; [by rewrite app_nil_r|].
  simpl. lia.
Qed.

(** ** The monad and the conditions of the parser *)

Section MonadFacts.
Context {JSON : JsonRuntime}.

Lemma get_run v k s :
  get v k s = match getProp v k with
              | Some x => (Returned x, s)
              | None => (Thrown TypeError, s)
              end.
Proof. unfold get. by destruct (getProp v k). Qed.

(** Reading the response text: condition, property path and the string
    check together are [classify]. *)
Lemma withText_run {A} data (k : jsstring → M A) (e : M A) s :
  (ok <- hasParts data ;;
   if ok then text <- firstText data ;; raw <- asString text ;; k raw else e) s
  = match classify data with
    | Text raw => k raw s
    | NoParts => e s
    | Broken => (Thrown TypeError, s)
    end.
Proof.
  unfold hasParts, firstText, classify, bind, ret, get, fromOption, throw.
  repeat
    (simpl;
     match goal with
     | H : getProp ?v ?k = _ |- context [getProp ?v ?k] => rewrite H
     | |- context [truthy ?v] => destruct (truthy v) eqn:?
     | |- context [match getProp ?v ?k with _ => _ end] =>
         destruct (getProp v k) eqn:?
     | |- context [match ?v with VString _ => _ | _ => _ end] => destruct v
     | _ => done
     end).
Qed.

Lemma every_cons_run (f : value → M bool) x l s :
  every f (x :: l) s
  = match f x s with
    | (Returned true, s') => every f l s'
    | (Returned false, s') => (Returned false, s')
    | (Thrown e, s') => (Thrown e, s')
    end.
Proof. cbn [every]. unfold bind. by destruct (f x s) as [[[]|] ?]. Qed.

Lemma hasTitle_run v s :
  hasTitle v s = (Returned (isTitledObject v), s) ∨
  (isTitledObject v = false ∧ hasTitle v s = (Thrown TypeError, s)).
Proof. destruct v; unfold hasTitle; simpl; auto. Qed.

(** [every] over the title check: true exactly on lists of titled
    objects; otherwise false or a TypeError, and no effect either way. *)
Lemma every_hasTitle_run subs s :
  if forallb isTitledObject subs
  then every hasTitle subs s = (Returned true, s)
  else every hasTitle subs s = (Returned false, s)
       ∨ every hasTitle subs s = (Thrown TypeError, s).
Proof.
  induction subs as [|v subs IH]; [done|].
  cbn [forallb]. rewrite every_cons_run.
  destruct (hasTitle_run v s) as [->|[Hv ->]].
  - destruct (isTitledObject v); simpl; [apply IH|auto].
  - rewrite Hv. simpl. auto.
Qed.

Lemma mapM_title_run subs s :
  forallb isTitledObject subs = true →
  mapM (fun sub => get sub k_title) subs s = (Returned (map titleOf subs), s).
Proof.
  induction subs as [|v subs IH]; [done|].
  cbn [forallb]. intros [Hv Hr]%andb_true_iff.
  cbn [mapM map]. unfold bind. rewrite get_run.
  destruct v; try discriminate. simpl. by rewrite IH.
Qed.

Lemma hasIdAndTitle_run v s :
  hasIdAndTitle v s = (Returned (hasIdAndStringTitle v), s) ∨
  (hasIdAndStringTitle v = false ∧ hasIdAndTitle v s = (Thrown TypeError, s)).
Proof.
  destruct v; unfold hasIdAndTitle, bind; simpl; auto.
  destruct (isUndefined _); simpl; auto.
Qed.

Lemma every_hasIdAndTitle_run tasks s :
  if forallb hasIdAndStringTitle tasks
  then every hasIdAndTitle tasks s = (Returned true, s)
  else every hasIdAndTitle tasks s = (Returned false, s)
       ∨ every hasIdAndTitle tasks s = (Thrown TypeError, s).
Proof.
  induction tasks as [|v tasks IH]; [done|].
  cbn [forallb]. rewrite every_cons_run.
  destruct (hasIdAndTitle_run v s) as [->|[Hv ->]].
  - destruct (hasIdAndStringTitle v); simpl; [apply IH|auto].
  - rewrite Hv. simpl. auto.
Qed.

End MonadFacts.

(** ** Runs of the parser *)

Section Runs.
Context {JSON : JsonRuntime} (w : world).

Lemma record_record a b s : record b (record a s) = record (a ++ b) s.
Proof. unfold record. simpl. by rewrite <-app_assoc. Qed.

Lemma record_ticked evs s : record evs (ticked s) = ticked (record evs s).
Proof. reflexivity. Qed.

Lemma record_stored evs p c s : record evs (stored p c s) = stored p c (record evs s).
Proof. reflexivity. Qed.

Lemma ticks_record evs s : ticks (record evs s) = ticks s.
Proof. reflexivity. Qed.

Lemma log_run {A} l (k : M A) s : (log l ;; k) s = k (record [EvLog l] s).
Proof. reflexivity. Qed.

(** Runs the straight-line code at the head of the goal. *)
Ltac settle :=
  cbv beta iota zeta delta
    [tryCatch bind ret throw log emit fromOption negb isArray timestampNow writeFileSync];
  rewrite ?ticks_record, ?record_stored, ?record_ticked, ?record_record;
  cbn [app]; try done.

(** Reading the requirements document, with its [catch]. *)
Lemma read_run {A} path (k : option jsstring → M A) s :
  (read <- tryCatch (c <- readFileSync path ;; ret (Some c))
                    (fun error => log LError ;; ret None) ;;
   k read) s
  = match files s !! path with
    | Some c => k (Some c) (record [EvRead path] s)
    | None => k None (record [EvRead path; EvLog LError] s)
    end.
Proof.
  unfold bind at 1. unfold tryCatch, readFileSync, bind, getState, emit, fromOption.
  destruct (files s !! path) eqn:E; cbn; rewrite E; [done|].
  cbn. by rewrite record_record.
Qed.

(** The exchange with the service, common to the six functions: the
    request, the reading of the response text, and the outer [catch]. *)
Lemma exchange_run req (k : jsstring → M value) (unexpected : M value) s :
  tryCatch
    (data <- post w req ;;
     ok <- hasParts data ;;
     if ok then text <- firstText data ;; raw <- asString text ;; k raw
     else unexpected)
    (fun error => log LError ;; ret VNull) s
  = match axios_post w req with
    | Rejected resp => (Returned VNull, record [EvPost req; EvLog LError] s)
    | Resolved data =>
        match classify data with
        | NoParts =>
            tryCatch unexpected (fun error => log LError ;; ret VNull)
              (record [EvPost req] s)
        | Broken => (Returned VNull, record [EvPost req; EvLog LError] s)
        | Text raw =>
            tryCatch (k raw) (fun error => log LError ;; ret VNull)
              (record [EvPost req] s)
        end
    end.
Proof.
  unfold tryCatch at 1. unfold bind at 1. unfold post at 1.
  unfold bind at 1. cbn [emit].
  destruct (axios_post w req) as [resp|data].
  - cbn. by rewrite record_record.
  - cbn [ret]. rewrite withText_run.
    destruct (classify data); try done.
    cbn. by rewrite record_record.
Qed.

(** *** The original parser *)

Lemma Original_parsePrd_run path s :
  Original.parsePrdWithGemini w path s
  = if noApiKey w then (Returned VNull, record [EvLog LError; EvLog LError] s)
    else
      match files s !! path with
      | None => (Returned VNull, record [EvRead path; EvLog LError] s)
      | Some content =>
          let req := prdRequest w false content in
          match axios_post w req with
          | Rejected resp =>
              (Returned VNull,
               record [EvRead path; EvLog LInfo; EvPost req; EvLog LError] s)
          | Resolved data =>
              match classify data with
              | NoParts =>
                  (Returned VNull,
                   record [EvRead path; EvLog LInfo; EvPost req;
                           EvLog LError; EvLog LError] s)
              | Broken =>
                  (Returned VNull,
                   record [EvRead path; EvLog LInfo; EvPost req; EvLog LError] s)
              | Text raw =>
                  match JSON_parse (cleanOriginal raw) with
                  | Some (VArray items) =>
                      (Returned (VArray items),
                       record [EvRead path; EvLog LInfo; EvPost req; EvLog LInfo] s)
                  | _ =>
                      (Returned VNull,
                       record [EvRead path; EvLog LInfo; EvPost req;
                               EvLog LError; EvLog LError] s)
                  end
              end
          end
      end.
Proof.
  unfold Original.parsePrdWithGemini.
  destruct (noApiKey w); [by rewrite !log_run, record_record|].
  rewrite read_run.
  destruct (files s !! path) as [content|]; [|done].
  rewrite log_run, exchange_run. cbn zeta.
  change (Request (apiUrl w) PrdPrompt [content] None) with (prdRequest w false content).
  rewrite !record_record. cbn [app].
  destruct (axios_post w _) as [resp|data]; [done|].
  destruct (classify data) as [| |raw]; [by settle|done|].
  unfold jsonParse.
  destruct (JSON_parse (cleanOriginal raw)) as [[]|]; by settle.
Qed.

Lemma Original_expand_run parentTask s :
  Original.expandTaskWithGemini w parentTask s
  = if noApiKey w then (Returned VNull, record [EvLog LError] s)
    else
      let req := expandRequest w false parentTask in
      match axios_post w req with
      | Rejected resp =>
          (Returned VNull, record [EvLog LInfo; EvPost req; EvLog LError] s)
      | Resolved data =>
          match classify data with
          | NoParts =>
              (Returned VNull,
               record [EvLog LInfo; EvPost req; EvLog LError; EvLog LError] s)
          | Broken =>
              (Returned VNull, record [EvLog LInfo; EvPost req; EvLog LError] s)
          | Text raw =>
              match JSON_parse (cleanOriginal raw) with
              | Some (VArray subs) =>
                  if forallb isTitledObject subs
                  then (Returned (VArray (map titleOf subs)),
                        record [EvLog LInfo; EvPost req; EvLog LInfo] s)
                  else (Returned VNull,
                        record [EvLog LInfo; EvPost req; EvLog LError; EvLog LError] s)
              | _ =>
                  (Returned VNull,
                   record [EvLog LInfo; EvPost req; EvLog LError; EvLog LError] s)
              end
          end
      end.
Proof.
  unfold Original.expandTaskWithGemini.
  destruct (noApiKey w); [done|].
  cbn zeta. rewrite log_run, exchange_run.
  change (Request (apiUrl w) ExpandPrompt _ None) with (expandRequest w false parentTask).
  rewrite !record_record. cbn [app].
  destruct (axios_post w _) as [resp|data]; [done|].
  destruct (classify data) as [| |raw]; [by settle|done|].
  unfold jsonParse.
  destruct (JSON_parse (cleanOriginal raw)) as [[| | | | |subs|]|]; try by settle.
  settle.
  pose proof (every_hasTitle_run subs
    (record [EvLog LInfo; EvPost (expandRequest w false parentTask)] s)) as Hev.
  destruct (forallb isTitledObject subs) eqn:Hall.
  - rewrite Hev. settle. rewrite mapM_title_run by done. by settle.
  - destruct Hev as [-> | ->]; by settle.
Qed.

Lemma Original_revise_run userPrompt pastTasks futureTasks s :
  Original.reviseTasksWithGemini w userPrompt pastTasks futureTasks s
  = if noApiKey w then (Returned VNull, record [EvLog LError] s)
    else
      let req := reviseRequest w false userPrompt pastTasks futureTasks in
      match axios_post w req with
      | Rejected resp =>
          (Returned VNull, record [EvLog LInfo; EvPost req; EvLog LError] s)
      | Resolved data =>
          match classify data with
          | NoParts =>
              (Returned VNull,
               record [EvLog LInfo; EvPost req; EvLog LError; EvLog LError] s)
          | Broken =>
              (Returned VNull, record [EvLog LInfo; EvPost req; EvLog LError] s)
          | Text raw =>
              match JSON_parse (cleanOriginal raw) with
              | Some (VArray items) =>
                  (Returned (VArray items),
                   record [EvLog LInfo; EvPost req; EvLog LInfo] s)
              | _ =>
                  (Returned VNull,
                   record [EvLog LInfo; EvPost req; EvLog LError; EvLog LError] s)
              end
          end
      end.
Proof.
  unfold Original.reviseTasksWithGemini.
  destruct (noApiKey w); [done|].
  cbn zeta. rewrite log_run, exchange_run.
  change (Request (apiUrl w) RevisePrompt _ None)
    with (reviseRequest w false userPrompt pastTasks futureTasks).
  rewrite !record_record. cbn [app].
  destruct (axios_post w _) as [resp|data]; [done|].
  destruct (classify data) as [| |raw]; [by settle|done|].
  unfold jsonParse.
  destruct (JSON_parse (cleanOriginal raw)) as [[]|]; by settle.
Qed.

(** *** The enhanced parser *)

Lemma Enhanced_parsePrd_run path s :
  Enhanced.parsePrdWithGemini w path s
  = if noApiKey w then (Returned VNull, record [EvLog LError; EvLog LError] s)
    else
      match files s !! path with
      | None => (Returned VNull, record [EvRead path; EvLog LError] s)
      | Some content =>
          let req := prdRequest w true content in
          match axios_post w req with
          | Rejected resp =>
              (Returned VNull,
               record [EvRead path; EvLog LInfo; EvPost req; EvLog LError] s)
          | Resolved data =>
              match classify data with
              | NoParts =>
                  (Returned VNull,
                   record [EvRead path; EvLog LInfo; EvPost req;
                           EvLog LError; EvLog LDebug] s)
              | Broken =>
                  (Returned VNull,
                   record [EvRead path; EvLog LInfo; EvPost req; EvLog LError] s)
              | Text raw =>
                  match JSON_parse (cleanEnhanced raw) with
                  | Some (VArray items) =>
                      let backupPath :=
                        Enhanced.prdBackupPath path (dashTimestamp (clock w (ticks s))) in
                      let backup := JSON_stringify (VArray items) in
                      if writable w backupPath
                      then (Returned (VArray items),
                            stored backupPath backup
                              (ticked (record [EvRead path; EvLog LInfo; EvPost req;
                                               EvWrite backupPath backup;
                                               EvLog LInfo; EvLog LInfo] s)))
                      else (Returned VNull,
                            ticked (record [EvRead path; EvLog LInfo; EvPost req;
                                            EvWrite backupPath backup;
                                            EvLog LError; EvLog LDebug] s))
                  | _ =>
                      (Returned VNull,
                       record [EvRead path; EvLog LInfo; EvPost req;
                               EvLog LError; EvLog LDebug] s)
                  end
              end
          end
      end.
Proof.
  unfold Enhanced.parsePrdWithGemini.
  destruct (noApiKey w); [by rewrite !log_run, record_record|].
  rewrite read_run.
  destruct (files s !! path) as [content|]; [|done].
  cbn zeta. rewrite log_run, exchange_run.
  change (Request (apiUrl w) PrdPromptWithTests _ _) with (prdRequest w true content).
  rewrite !record_record. cbn [app].
  destruct (axios_post w _) as [resp|data]; [done|].
  destruct (classify data) as [| |raw]; [by settle|done|].
  unfold jsonParse.
  destruct (JSON_parse (cleanEnhanced raw)) as [[| | | | |items|]|]; try by settle.
  settle. destruct (writable w _); by settle.
Qed.

(** The fallback to line splitting, under the outer [catch]. *)
Lemma fallback_run parentTask jsonResponse s :
  tryCatch (Enhanced.fallbackToLines w parentTask jsonResponse)
    (fun error => log LError ;; ret VNull) s
  = match Enhanced.fallbackLines jsonResponse with
    | [] => (Returned VNull, record [EvLog LError; EvLog LDebug; EvLog LInfo] s)
    | l :: ls =>
        let backupPath :=
          Enhanced.fallbackBackupPath (id parentTask)
            (dashTimestamp (clock w (ticks s))) in
        let backup := JsString.join [LF] (l :: ls) in
        if writable w backupPath
        then (Returned (VArray (map VString (l :: ls))),
              stored backupPath backup
                (ticked (record [EvLog LError; EvLog LDebug; EvLog LInfo; EvLog LInfo;
                                 EvWrite backupPath backup] s)))
        else (Returned VNull,
              ticked (record [EvLog LError; EvLog LDebug; EvLog LInfo; EvLog LInfo;
                              EvWrite backupPath backup; EvLog LError] s))
    end.
Proof.
  unfold Enhanced.fallbackToLines.
  destruct (Enhanced.fallbackLines jsonResponse) as [|l ls]; [by settle|].
  settle. destruct (writable w _); by settle.
Qed.

Lemma Enhanced_expand_run parentTask s :
  Enhanced.expandTaskWithGemini w parentTask s
  = if noApiKey w then (Returned VNull, record [EvLog LError] s)
    else
      let req := expandRequest w true parentTask in
      match axios_post w req with
      | Rejected resp =>
          (Returned VNull, record [EvLog LInfo; EvPost req; EvLog LError] s)
      | Resolved data =>
          match classify data with
          | NoParts =>
              (Returned VNull,
               record [EvLog LInfo; EvPost req; EvLog LError; EvLog LDebug] s)
          | Broken =>
              (Returned VNull, record [EvLog LInfo; EvPost req; EvLog LError] s)
          | Text raw =>
              let fallback :=
                tryCatch (Enhanced.fallbackToLines w parentTask (cleanEnhanced raw))
                  (fun error => log LError ;; ret VNull) in
              match JSON_parse (cleanEnhanced raw) with
              | Some (VArray subs) =>
                  if forallb isTitledObject subs
                  then
                    let backupPath :=
                      Enhanced.subtasksBackupPath (id parentTask)
                        (dashTimestamp (clock w (ticks s))) in
                    let backup := JSON_stringify (VArray subs) in
                    if writable w backupPath
                    then (Returned (VArray (map titleOf subs)),
                          stored backupPath backup
                            (ticked (record [EvLog LInfo; EvPost req;
                                             EvWrite backupPath backup;
                                             EvLog LInfo; EvLog LInfo] s)))
                    else fallback
                           (ticked (record [EvLog LInfo; EvPost req;
                                            EvWrite backupPath backup] s))
                  else fallback (record [EvLog LInfo; EvPost req] s)
              | _ => fallback (record [EvLog LInfo; EvPost req] s)
              end
          end
      end.
Proof.
  unfold Enhanced.expandTaskWithGemini.
  destruct (noApiKey w); [done|].
  cbn zeta. rewrite log_run, exchange_run.
  change (Request (apiUrl w) ExpandPromptWithTests _ _)
    with (expandRequest w true parentTask).
  rewrite !record_record. cbn [app].
  destruct (axios_post w _) as [resp|data]; [done|].
  destruct (classify data) as [| |raw]; [by settle|done|].
  unfold jsonParse.
  destruct (JSON_parse (cleanEnhanced raw)) as [[| | | | |subs|]|]; try by settle.
  settle.
  pose proof (every_hasTitle_run subs
    (record [EvLog LInfo; EvPost (expandRequest w true parentTask)] s)) as Hev.
  destruct (forallb isTitledObject subs) eqn:Hall.
  - rewrite Hev. settle. destruct (writable w _); [|by settle].
    settle. rewrite mapM_title_run by done. by settle.
  - destruct Hev as [-> | ->]; by settle.
Qed.

Lemma Enhanced_revise_run userPrompt pastTasks futureTasks s :
  Enhanced.reviseTasksWithGemini w userPrompt pastTasks futureTasks s
  = if noApiKey w then (Returned VNull, record [EvLog LError] s)
    else
      let req := reviseRequest w true userPrompt pastTasks futureTasks in
      match axios_post w req with
      | Rejected resp =>
          (Returned VNull, record [EvLog LInfo; EvPost req; EvLog LError] s)
      | Resolved data =>
          match classify data with
          | NoParts =>
              (Returned VNull,
               record [EvLog LInfo; EvPost req; EvLog LError; EvLog LDebug] s)
          | Broken =>
              (Returned VNull, record [EvLog LInfo; EvPost req; EvLog LError] s)
          | Text raw =>
              match JSON_parse (cleanEnhanced raw) with
              | Some (VArray tasks) =>
                  if forallb hasIdAndStringTitle tasks
                  then
                    let backupPath :=
                      Enhanced.revisedBackupPath (dashTimestamp (clock w (ticks s))) in
                    let backup := JSON_stringify (VArray tasks) in
                    if writable w backupPath
                    then (Returned (VArray tasks),
                          stored backupPath backup
                            (ticked (record [EvLog LInfo; EvPost req;
                                             EvWrite backupPath backup;
                                             EvLog LInfo; EvLog LInfo] s)))
                    else (Returned VNull,
                          ticked (record [EvLog LInfo; EvPost req;
                                          EvWrite backupPath backup;
                                          EvLog LError; EvLog LDebug] s))
                  else (Returned VNull,
                        record [EvLog LInfo; EvPost req; EvLog LError; EvLog LDebug] s)
              | _ =>
                  (Returned VNull,
                   record [EvLog LInfo; EvPost req; EvLog LError; EvLog LDebug] s)
              end
          end
      end.
Proof.
  unfold Enhanced.reviseTasksWithGemini.
  destruct (noApiKey w); [done|].
  cbn zeta. rewrite log_run, exchange_run.
  change (Request (apiUrl w) RevisePromptWithTests _ _)
    with (reviseRequest w true userPrompt pastTasks futureTasks).
  rewrite !record_record. cbn [app].
  destruct (axios_post w _) as [resp|data]; [done|].
  destruct (classify data) as [| |raw]; [by settle|done|].
  unfold jsonParse.
  destruct (JSON_parse (cleanEnhanced raw)) as [[| | | | |tasks|]|]; try by settle.
  settle.
  pose proof (every_hasIdAndTitle_run tasks
    (record [EvLog LInfo; EvPost (reviseRequest w true userPrompt pastTasks futureTasks)] s))
    as Hev.
  destruct (forallb hasIdAndStringTitle tasks) eqn:Hall.
  - rewrite Hev. settle. destruct (writable w _); by settle.
  - destruct Hev as [-> | ->]; by settle.
Qed.

End Runs.

(** ** Exception safety and the failure value *)

Section Failures.
Context {JSON : JsonRuntime} (w : world).

(** The run of any call, by cases. *)
Ltac unfold_call c enhanced :=
  destruct c, enhanced; cbn [invoke requestOf clean];
  rewrite ?Enhanced_parsePrd_run, ?Enhanced_expand_run, ?Enhanced_revise_run,
    ?Original_parsePrd_run, ?Original_expand_run, ?Original_revise_run.

(** The result of the fallback, under the outer [catch]. *)
Lemma fallback_result t j s :
  resultOf (tryCatch (Enhanced.fallbackToLines w t j)
              (fun error => log LError ;; ret VNull) s)
  = match Enhanced.fallbackLines j with
    | [] => Returned VNull
    | line :: lines =>
        if writable w (Enhanced.fallbackBackupPath (id t)
                         (dashTimestamp (clock w (ticks s))))
        then Returned (VArray (map VString (line :: lines)))
        else Returned VNull
    end.
Proof.
  rewrite fallback_run. cbv zeta.
  destruct (Enhanced.fallbackLines j); [done|]. by destruct (writable w _).
Qed.

Lemma fallback_never_throws t j s :
  ∃ v, resultOf (tryCatch (Enhanced.fallbackToLines w t j)
                   (fun error => log LError ;; ret VNull) s) = Returned v.
Proof. rewrite fallback_run. cbv zeta. repeat case_match; by eexists. Qed.

Lemma invoke_never_throws enhanced c s :
  ∃ v, resultOf (invoke w enhanced c s) = Returned v.
Proof.
  unfold_call c enhanced; cbv zeta;
    repeat case_match; first [by eexists | apply fallback_never_throws].
Qed.

(** In a failure mode the result is [null], except for the line fallback
    of the enhanced expansion. *)
Lemma failure_result enhanced c s m :
  failure w enhanced s c m →
  resultOf (invoke w enhanced c s) = Returned VNull
  ∨ (enhanced = true ∧ m = NotAJsonArray
     ∧ ∃ parentTask data raw,
         c = ExpandTask parentTask
         ∧ axios_post w (expandRequest w true parentTask) = Resolved data
         ∧ classify data = Text raw
         ∧ Enhanced.fallbackLines (cleanEnhanced raw) ≠ []
         ∧ resultOf (invoke w enhanced c s)
           = Returned (VArray (map VString (Enhanced.fallbackLines (cleanEnhanced raw))))).
Proof.
  intros [Hkey | path -> Hfile | req resp Hreq Hpost | req data Hreq Hpost Hcl
          | req data raw Hreq Hpost Hcl Hparse].
  - left. unfold_call c enhanced; by rewrite Hkey.
  - left. destruct enhanced; cbn [invoke];
      rewrite ?Enhanced_parsePrd_run, ?Original_parsePrd_run;
      destruct (noApiKey w); try done; by rewrite Hfile.
  - left. unfold_call c enhanced; cbn [requestOf] in Hreq;
      (destruct (noApiKey w); [done|]);
      try (destruct (files s !! _); [|done]);
      cbn [fmap option_fmap option_map] in Hreq; simplify_eq;
      cbv zeta; by rewrite Hpost.
  - left. unfold_call c enhanced; cbn [requestOf] in Hreq;
      (destruct (noApiKey w); [done|]);
      try (destruct (files s !! _); [|done]);
      cbn [fmap option_fmap option_map] in Hreq; simplify_eq;
      cbv zeta; rewrite Hpost;
      destruct (classify data) as [| |raw]; try done; by destruct (Hcl raw).
  - unfold_call c enhanced; cbn [requestOf] in Hreq;
      (destruct (noApiKey w); [by left|]);
      try (destruct (files s !! _); [|by left]);
      cbn [fmap option_fmap option_map] in Hreq; simplify_eq;
      cbv zeta; rewrite Hpost, Hcl; cbn [clean] in Hparse;
      try (destruct (JSON_parse _) as [[]|] eqn:Hp; try (by left);
           by destruct (Hparse _ eq_refl)).
    destruct (JSON_parse _) as [[]|] eqn:Hp; try (by destruct (Hparse _ eq_refl));
      rewrite fallback_run;
      (destruct (Enhanced.fallbackLines (cleanEnhanced raw)) as [|l ls] eqn:Hl;
       [by left|]);
      cbv zeta; (destruct (writable w _); [|by left]);
      right; repeat split; try done; exists parentTask, data, raw;
      rewrite Hl; repeat split; done.
Qed.

(** An entry whose arguments are given is the call of these arguments. *)
Lemma enter_given enhanced e c s :
  given e = Some c → enter w enhanced e s = invoke w enhanced c s.
Proof. intros H. unfold enter. by rewrite H. Qed.

(** An entry with a missing argument: [null] without a key, else the
    TypeError of the prompt, in the state of the call. *)
Lemma enter_missing_run enhanced e s :
  given e = None →
  enter w enhanced e s
  = if noApiKey w then (Returned VNull, record [EvLog LError] s)
    else (Thrown TypeError, s).
Proof. intros H. unfold enter. rewrite H. by destruct (noApiKey w). Qed.

End Failures.

(** ** Properties of the collaborators *)

(** C10. Without a configured GEMINI_API_KEY (unset, or empty), each of the
    three functions, in either version, returns [null] at once: no file is
    read or written, no request is sent, and the only events of the run are
    the diagnostics of the missing key. *)
Theorem missing_key_fails_without_io {JSON : JsonRuntime} (w : world) enhanced c s :
  noApiKey w = true →
  failsWithoutIO s (invoke w enhanced c s).
Proof.
  intros Hkey. unfold failsWithoutIO, resultOf, filesAfter, traceAfter.
  destruct c, enhanced; cbn [invoke];
    rewrite ?Enhanced_parsePrd_run, ?Enhanced_expand_run, ?Enhanced_revise_run,
      ?Original_parsePrd_run, ?Original_expand_run, ?Original_revise_run;
    rewrite Hkey; (split; [done|]); (split; [done|]); by eexists.
Qed.

Lemma missing_key_fails_without_io_witness :
  noApiKey worldWithoutKey = true
  ∧ failsWithoutIO someDisk
      (invoke (JSON := refJson) worldWithoutKey true (ParsePrd (js "prd.txt")) someDisk).
Proof.
  split; [reflexivity|].
  apply (missing_key_fails_without_io (JSON := refJson) worldWithoutKey true
           (ParsePrd (js "prd.txt")) someDisk).
  reflexivity.
Defined.

(** C1, as stated, fails: the enhanced [expandTaskWithGemini] answers a
    response text that is no JSON at all with the line of the fallback,
    not with [null]. *)
Lemma expand_fallback_is_not_null :
  failure (JSON := refJson) (worldAnswering (js "hello") (fun _ => true)) true someDisk
    (ExpandTask someTask) NotAJsonArray
  ∧ resultOf (Enhanced.expandTaskWithGemini (JSON := refJson)
                (worldAnswering (js "hello") (fun _ => true)) someTask someDisk)
    = Returned (VArray [VString (js "hello")])
  ∧ resultOf (Enhanced.expandTaskWithGemini (JSON := refJson)
                (worldAnswering (js "hello") (fun _ => true)) someTask someDisk)
    ≠ Returned VNull.
Proof.
  split; [|split].
  - eapply fail_array; [reflexivity|reflexivity|reflexivity|].
    intros items. vm_compute. discriminate.
  - vm_compute. reflexivity.
  - vm_compute. discriminate.
Qed.

(** The part of C1 on exceptions fails as well: with a key configured,
    [expandTaskWithGemini(null)] and [reviseTasksWithGemini] with a missing
    list throw the TypeError of the prompt to their caller, in either
    version, having done nothing. *)
Lemma missing_argument_throws :
  (∀ enhanced,
     enter (JSON := refJson) (worldAnswering (js "[]") (fun _ => true)) enhanced
       (EnterExpandTask None) someDisk
     = (Thrown TypeError, someDisk))
  ∧ (∀ enhanced,
       enter (JSON := refJson) (worldAnswering (js "[]") (fun _ => true)) enhanced
         (EnterReviseTasks (js "use rust") None (Some [someTask])) someDisk
       = (Thrown TypeError, someDisk))
  ∧ (∀ enhanced,
       enter (JSON := refJson) (worldAnswering (js "[]") (fun _ => true)) enhanced
         (EnterReviseTasks (js "use rust") (Some [someTask]) None) someDisk
       = (Thrown TypeError, someDisk)).
Proof. repeat split; intros []; reflexivity. Qed.

(** C1 (amended). Called with the arguments it expects (a path, a task,
    lists of tasks), none of the three functions, in either version,
    propagates an exception; called with a task or a list of tasks that is
    [null] or [undefined], [expandTaskWithGemini] and
    [reviseTasksWithGemini] return [null] when no key is configured and
    otherwise throw a TypeError to the caller, before anything is logged,
    sent or written.  In each failure mode (missing credential, unreadable
    input file, transport error, unexpected response structure, response
    text that is not a JSON array) the result is [null], except that the
    enhanced [expandTaskWithGemini], on a response text that is not a JSON
    array, returns the lines of its fallback when there is one. *)
Theorem collaborators_fail_closed {JSON : JsonRuntime} (w : world) :
  (∀ enhanced e c s,
     given e = Some c →
     enter w enhanced e s = invoke w enhanced c s
     ∧ ∃ v, resultOf (enter w enhanced e s) = Returned v)
  ∧ (∀ enhanced e s,
       given e = None →
       if noApiKey w
       then resultOf (enter w enhanced e s) = Returned VNull
            ∧ filesAfter (enter w enhanced e s) = files s
       else enter w enhanced e s = (Thrown TypeError, s))
  ∧ (∀ enhanced c s m,
       failure w enhanced s c m →
       resultOf (invoke w enhanced c s) = Returned VNull
       ∨ (enhanced = true ∧ m = NotAJsonArray
          ∧ ∃ parentTask data raw,
              c = ExpandTask parentTask
              ∧ axios_post w (expandRequest w true parentTask) = Resolved data
              ∧ classify data = Text raw
              ∧ Enhanced.fallbackLines (cleanEnhanced raw) ≠ []
              ∧ resultOf (invoke w enhanced c s)
                = Returned (VArray (map VString
                                      (Enhanced.fallbackLines (cleanEnhanced raw)))))).
Proof.
  split; [|split].
  - intros enhanced e c s He. rewrite (enter_given w enhanced e c s He).
    split; [reflexivity|]. apply invoke_never_throws.
  - intros enhanced e s He. rewrite (enter_missing_run w enhanced e s He).
    by destruct (noApiKey w).
  - apply failure_result.
Qed.

Lemma collaborators_fail_closed_witness :
  (failure (JSON := refJson) worldOffline false someDisk (ParsePrd (js "prd.txt"))
     TransportError
   ∧ resultOf (invoke (JSON := refJson) worldOffline false (ParsePrd (js "prd.txt"))
                 someDisk)
     = Returned VNull)
  ∧ (given (EnterExpandTask (Some someTask)) = Some (ExpandTask someTask)
     ∧ ∃ v, resultOf (enter (JSON := refJson) worldOffline true
                        (EnterExpandTask (Some someTask)) someDisk) = Returned v)
  ∧ (given (EnterExpandTask None) = None
     ∧ enter (JSON := refJson) worldOffline true (EnterExpandTask None) someDisk
       = (Thrown TypeError, someDisk)).
Proof.
  assert (failure (JSON := refJson) worldOffline false someDisk (ParsePrd (js "prd.txt"))
            TransportError) as Hf.
  { eapply fail_transport; reflexivity. }
  pose proof (collaborators_fail_closed (JSON := refJson) worldOffline)
    as (Hgiven & Hmissing & Hfail).
  split; [|split].
  - split; [exact Hf|].
    destruct (Hfail false (ParsePrd (js "prd.txt")) someDisk TransportError Hf)
      as [Hnull | [Habs _]].
    + exact Hnull.
    + discriminate Habs.
  - split; [reflexivity|].
    exact (proj2 (Hgiven true (EnterExpandTask (Some someTask)) (ExpandTask someTask)
                    someDisk eq_refl)).
  - split; [reflexivity|].
    exact (Hmissing true (EnterExpandTask None) someDisk eq_refl).
Defined.

(** C2, as stated, fails: both versions of [parsePrdWithGemini] return an
    array whose entries have none of the promised fields. *)
Lemma parsePrd_returns_shapeless_entries :
  forallb hasTaskShape [VObject []; VNumber (decimalOfN 7)] = false
  ∧ resultOf (Original.parsePrdWithGemini (JSON := refJson)
                (worldAnswering (js "[{}, 7]") (fun _ => true)) (js "prd.txt") someDisk)
    = Returned (VArray [VObject []; VNumber (decimalOfN 7)])
  ∧ resultOf (Enhanced.parsePrdWithGemini (JSON := refJson)
                (worldAnswering (js "[{}, 7]") (fun _ => true)) (js "prd.txt") someDisk)
    = Returned (VArray [VObject []; VNumber (decimalOfN 7)]).
Proof. repeat split; vm_compute; reflexivity. Qed.

(** C2 (amended). [parsePrdWithGemini] does not look at the entries of the
    list: it returns a task list only if the cleaned response text parses
    as a JSON array, and the list is that array as parsed; conversely every
    JSON array, whatever its entries, is returned (in the enhanced version
    provided its backup file can be written). *)
Theorem parsePrd_accepts_any_array {JSON : JsonRuntime} (w : world) enhanced path s :
  (∀ v, resultOf (invoke w enhanced (ParsePrd path) s) = Returned v →
        v ≠ VNull →
        ∃ content data raw items,
          files s !! path = Some content
          ∧ axios_post w (prdRequest w enhanced content) = Resolved data
          ∧ classify data = Text raw
          ∧ JSON_parse (clean enhanced raw) = Some (VArray items)
          ∧ v = VArray items)
  ∧ (∀ content data raw items,
       noApiKey w = false →
       files s !! path = Some content →
       axios_post w (prdRequest w enhanced content) = Resolved data →
       classify data = Text raw →
       JSON_parse (clean enhanced raw) = Some (VArray items) →
       (enhanced = true →
        writable w (Enhanced.prdBackupPath path (dashTimestamp (clock w (ticks s)))) = true) →
       resultOf (invoke w enhanced (ParsePrd path) s) = Returned (VArray items)).
Proof.
  split.
  - intros v Hv Hnn. unfold resultOf in Hv.
    destruct enhanced; cbn [invoke clean] in *;
      rewrite ?Enhanced_parsePrd_run, ?Original_parsePrd_run in Hv;
      cbv zeta in Hv; repeat case_match; cbn [fst] in Hv; simplify_eq;
      by do 4 eexists.
  - intros content data raw items Hkey Hfile Hpost Hcl Hparse Hw. unfold resultOf.
    destruct enhanced; cbn [invoke clean] in *;
      rewrite ?Enhanced_parsePrd_run, ?Original_parsePrd_run;
      rewrite Hkey, Hfile; cbv zeta; rewrite Hpost, Hcl, Hparse; [|done].
    by rewrite Hw.
Qed.

Lemma parsePrd_accepts_any_array_witness :
  resultOf (invoke (JSON := refJson) (worldAnswering (js "[{}, 7]") (fun _ => true)) true
              (ParsePrd (js "prd.txt")) someDisk)
  = Returned (VArray [VObject []; VNumber (decimalOfN 7)]).
Proof.
  apply (proj2 (parsePrd_accepts_any_array (JSON := refJson)
                  (worldAnswering (js "[{}, 7]") (fun _ => true)) true (js "prd.txt") someDisk)
           (js "Build a game") (answerWith (js "[{}, 7]")) (js "[{}, 7]")).
  - reflexivity.
  - reflexivity.
  - reflexivity.
  - reflexivity.
  - vm_compute. reflexivity.
  - reflexivity.
Defined.

(** C3, as stated, fails on the original parser: its
    [reviseTasksWithGemini] passes on an entry with no identifier and no
    title. *)
Lemma original_revise_passes_entries_without_fields :
  forallb hasIdAndStringTitle [VObject []] = false
  ∧ resultOf (Original.reviseTasksWithGemini (JSON := refJson)
                (worldAnswering (js "[{}]") (fun _ => true))
                (js "use GraphQL") [] [someTask] someDisk)
    = Returned (VArray [VObject []]).
Proof. split; vm_compute; reflexivity. Qed.

(** C3 (amended). The enhanced [reviseTasksWithGemini] accepts a response
    only if it is a JSON array in which every entry is an object carrying
    an identifier and a string title, and returns [null] for every array
    with an entry missing those fields.  The original
    [reviseTasksWithGemini] only checks that the response is a JSON array
    and returns it as parsed. *)
Theorem revise_validates_entries {JSON : JsonRuntime} (w : world)
    userPrompt pastTasks futureTasks s :
  (∀ v, resultOf (Enhanced.reviseTasksWithGemini w userPrompt pastTasks futureTasks s)
        = Returned v →
        v ≠ VNull →
        ∃ data raw tasks,
          axios_post w (reviseRequest w true userPrompt pastTasks futureTasks) = Resolved data
          ∧ classify data = Text raw
          ∧ JSON_parse (cleanEnhanced raw) = Some (VArray tasks)
          ∧ forallb hasIdAndStringTitle tasks = true
          ∧ v = VArray tasks)
  ∧ (∀ data raw tasks,
       axios_post w (reviseRequest w true userPrompt pastTasks futureTasks) = Resolved data →
       classify data = Text raw →
       JSON_parse (cleanEnhanced raw) = Some (VArray tasks) →
       forallb hasIdAndStringTitle tasks = false →
       resultOf (Enhanced.reviseTasksWithGemini w userPrompt pastTasks futureTasks s)
       = Returned VNull)
  ∧ (∀ data raw items,
       noApiKey w = false →
       axios_post w (reviseRequest w false userPrompt pastTasks futureTasks) = Resolved data →
       classify data = Text raw →
       JSON_parse (cleanOriginal raw) = Some (VArray items) →
       resultOf (Original.reviseTasksWithGemini w userPrompt pastTasks futureTasks s)
       = Returned (VArray items)).
Proof.
  unfold resultOf. rewrite Enhanced_revise_run, Original_revise_run. cbv zeta.
  split; [|split].
  - intros v Hv Hnn. repeat case_match; cbn [fst] in Hv; simplify_eq.
    by do 3 eexists.
  - intros data raw tasks Hpost Hcl Hparse Hbad.
    destruct (noApiKey w); [done|]. by rewrite Hpost, Hcl, Hparse, Hbad.
  - intros data raw items Hkey Hpost Hcl Hparse.
    by rewrite Hkey, Hpost, Hcl, Hparse.
Qed.

Lemma revise_validates_entries_witness :
  resultOf (Enhanced.reviseTasksWithGemini (JSON := refJson)
              (worldAnswering (js "[{}]") (fun _ => true))
              (js "use GraphQL") [] [someTask] someDisk)
  = Returned VNull.
Proof.
  apply (proj1 (proj2 (revise_validates_entries (JSON := refJson)
                         (worldAnswering (js "[{}]") (fun _ => true))
                         (js "use GraphQL") [] [someTask] someDisk))
           (answerWith (js "[{}]")) (js "[{}]") [VObject []]).
  - reflexivity.
  - reflexivity.
  - vm_compute. reflexivity.
  - reflexivity.
Defined.

Lemma forallb_false_elem {A} (f : A → bool) (l : list A) x :
  x ∈ l → f x = false → forallb f l = false.
Proof.
  induction 1 as [x l | x y l _ IH]; intros Hx; cbn [forallb].
  - by rewrite Hx.
  - rewrite (IH Hx). apply andb_false_r.
Qed.

(** C4, as stated, fails on the enhanced parser: a response accepted by
    the strict parse does not yield its titles when the backup file cannot
    be written. *)
Lemma expand_without_backup_returns_no_titles :
  JSON_parse (JsonRuntime := refJson) (cleanEnhanced (jsq "[{'title':'A'}]"))
  = Some (VArray [VObject [(js "title", VString (js "A"))]])
  ∧ forallb isTitledObject [VObject [(js "title", VString (js "A"))]] = true
  ∧ resultOf (Enhanced.expandTaskWithGemini (JSON := refJson)
                (worldAnswering (jsq "[{'title':'A'}]") (fun _ => false)) someTask someDisk)
    = Returned VNull.
Proof. repeat split; vm_compute; reflexivity. Qed.

(** C4 (amended). For every expansion response accepted by the strict
    parse (a JSON array whose elements are all objects with a truthy title
    field), [expandTaskWithGemini] returns exactly the sequence of those
    title values, one per element and in the array's order; in the
    enhanced version, provided the backup file of the accepted array can be
    written.  Any array containing a non-object element or an element
    without a title fails the strict parse: the original parser returns
    [null], the enhanced parser runs its fallback. *)
Theorem expand_returns_titles {JSON : JsonRuntime} (w : world)
    enhanced parentTask s data raw subs :
  noApiKey w = false →
  axios_post w (expandRequest w enhanced parentTask) = Resolved data →
  classify data = Text raw →
  JSON_parse (clean enhanced raw) = Some (VArray subs) →
  (forallb isTitledObject subs = true →
   (enhanced = true →
    writable w (Enhanced.subtasksBackupPath (id parentTask)
                  (dashTimestamp (clock w (ticks s)))) = true) →
   resultOf (invoke w enhanced (ExpandTask parentTask) s)
   = Returned (VArray (map titleOf subs)))
  ∧ (∀ x, x ∈ subs → isTitledObject x = false →
       if enhanced
       then invoke w true (ExpandTask parentTask) s
            = tryCatch (Enhanced.fallbackToLines w parentTask (cleanEnhanced raw))
                (fun error => log LError ;; ret VNull)
                (record [EvLog LInfo; EvPost (expandRequest w true parentTask)] s)
       else resultOf (invoke w false (ExpandTask parentTask) s) = Returned VNull)
  ∧ (∀ x, typeof x ≠ TyObject → isTitledObject x = false)
  ∧ (∀ fields, truthy (lookupField (js "title") fields) = false →
               isTitledObject (VObject fields) = false).
Proof.
  intros Hkey Hpost Hcl Hparse. split; [|split; [|split]].
  - intros Hall Hw. unfold resultOf.
    destruct enhanced; cbn [invoke clean] in *;
      rewrite ?Enhanced_expand_run, ?Original_expand_run;
      rewrite Hkey; cbv zeta; rewrite Hpost, Hcl, Hparse, Hall; [|done].
    by rewrite Hw.
  - intros x Hx Hbad. pose proof (forallb_false_elem _ _ _ Hx Hbad) as Hall.
    unfold resultOf.
    destruct enhanced; cbn [invoke clean] in *;
      rewrite ?Enhanced_expand_run, ?Original_expand_run;
      rewrite Hkey; cbv zeta; by rewrite Hpost, Hcl, Hparse, Hall.
  - by intros [].
  - intros fields Hf. exact Hf.
Qed.

Lemma expand_returns_titles_witness :
  resultOf (invoke (JSON := refJson)
              (worldAnswering (jsq "[{'title':'A'}, {'title':'B'}]") (fun _ => true)) true
              (ExpandTask someTask) someDisk)
  = Returned (VArray [VString (js "A"); VString (js "B")]).
Proof.
  apply (proj1 (expand_returns_titles (JSON := refJson)
                  (worldAnswering (jsq "[{'title':'A'}, {'title':'B'}]") (fun _ => true))
                  true someTask someDisk
                  (answerWith (jsq "[{'title':'A'}, {'title':'B'}]"))
                  (jsq "[{'title':'A'}, {'title':'B'}]")
                  [VObject [(js "title", VString (js "A"))];
                   VObject [(js "title", VString (js "B"))]]
                  eq_refl eq_refl eq_refl eq_refl)).
  - reflexivity.
  - reflexivity.
Defined.

(** The lines of the fallback: the trimmed lines of the text that are not
    empty and hold no fence, in the order of the text. *)
Lemma fallbackLines_spec (jsonResponse : jsstring) :
  sublist (Enhanced.fallbackLines jsonResponse)
          (map JsString.trim (JsString.split LF jsonResponse))
  ∧ ∀ line, line ∈ Enhanced.fallbackLines jsonResponse ↔
            (∃ l, l ∈ JsString.split LF jsonResponse ∧ line = JsString.trim l)
            ∧ line ≠ [] ∧ JsString.includes fence line = false.
Proof.
  unfold Enhanced.fallbackLines. split.
  - induction (map JsString.trim (JsString.split LF jsonResponse)) as [|l ls IH];
      [constructor|].
    cbn [List.filter]. destruct (Enhanced.keepLine l); by constructor.
  - intros line. rewrite list_elem_of_In, filter_In, <-list_elem_of_In, list_elem_of_fmap.
    unfold Enhanced.keepLine. rewrite andb_true_iff, negb_true_iff.
    split.
    + intros [(l & -> & Hl) [Hne Hf]]. repeat split; [by exists l| |done].
      intros E. by rewrite E in Hne.
    + intros [(l & Hl & ->) [Hne Hf]]. repeat split; [by exists l| |done].
      by destruct (JsString.trim l).
Qed.

(** C5, as stated, fails: a response that fails the strict parse and has a
    line to fall back on still yields [null] when the backup file of the
    fallback cannot be written. *)
Lemma fallback_without_backup_is_null :
  JSON_parse (JsonRuntime := refJson) (cleanEnhanced (js "hello")) = None
  ∧ Enhanced.fallbackLines (cleanEnhanced (js "hello")) = [js "hello"]
  ∧ resultOf (Enhanced.expandTaskWithGemini (JSON := refJson)
                (worldAnswering (js "hello") (fun _ => false)) someTask someDisk)
    = Returned VNull.
Proof. repeat split; vm_compute; reflexivity. Qed.

(** C5 (amended). In the enhanced version, whenever the strict JSON parse
    or the shape check of the expansion response fails,
    [expandTaskWithGemini] degrades to line splitting: it returns the
    trimmed, non-empty lines of the cleaned response text that contain no
    fence, in order, provided there is at least one such line and the backup
    file of the fallback can be written; with no such line, or with a
    backup that cannot be written, it returns [null]. *)
Theorem expand_falls_back_to_lines {JSON : JsonRuntime} (w : world)
    parentTask s data raw :
  noApiKey w = false →
  axios_post w (expandRequest w true parentTask) = Resolved data →
  classify data = Text raw →
  (∀ subs, JSON_parse (cleanEnhanced raw) = Some (VArray subs) →
           forallb isTitledObject subs = false) →
  resultOf (Enhanced.expandTaskWithGemini w parentTask s)
  = match Enhanced.fallbackLines (cleanEnhanced raw) with
    | [] => Returned VNull
    | line :: lines =>
        if writable w (Enhanced.fallbackBackupPath (id parentTask)
                         (dashTimestamp (clock w (ticks s))))
        then Returned (VArray (map VString (line :: lines)))
        else Returned VNull
    end
  ∧ sublist (Enhanced.fallbackLines (cleanEnhanced raw))
            (map JsString.trim (JsString.split LF (cleanEnhanced raw)))
  ∧ ∀ line, line ∈ Enhanced.fallbackLines (cleanEnhanced raw) ↔
            (∃ l, l ∈ JsString.split LF (cleanEnhanced raw) ∧ line = JsString.trim l)
            ∧ line ≠ [] ∧ JsString.includes fence line = false.
Proof.
  intros Hkey Hpost Hcl Hstrict. split; [|apply fallbackLines_spec].
  rewrite Enhanced_expand_run, Hkey. cbv zeta. rewrite Hpost, Hcl.
  destruct (JSON_parse (cleanEnhanced raw)) as [[| | | | |subs|]|] eqn:Hparse;
    rewrite ?(Hstrict subs eq_refl); by rewrite fallback_result, ticks_record.
Qed.

Lemma expand_falls_back_to_lines_witness :
  resultOf (Enhanced.expandTaskWithGemini (JSON := refJson)
              (worldAnswering (js "hello") (fun _ => true)) someTask someDisk)
  = Returned (VArray [VString (js "hello")]).
Proof.
  apply (proj1 (expand_falls_back_to_lines (JSON := refJson)
                  (worldAnswering (js "hello") (fun _ => true)) someTask someDisk
                  (answerWith (js "hello")) (js "hello") eq_refl eq_refl eq_refl
                  ltac:(intros subs H; vm_compute in H; discriminate H))).
Defined.

(** No backup path is the path of the task store. *)
Lemma prdBackupPath_not_store path timestamp :
  Enhanced.prdBackupPath path timestamp ≠ TASKS_FILE.
Proof.
  intros H. apply (f_equal length) in H.
  unfold Enhanced.prdBackupPath in H. rewrite !length_app in H.
  change (length (js ".tasks.")) with 7 in H.
  change (length (js ".json")) with 5 in H.
  change (length TASKS_FILE) with 10 in H. lia.
Qed.

Lemma subtasksBackupPath_not_store parentId timestamp :
  Enhanced.subtasksBackupPath parentId timestamp ≠ TASKS_FILE.
Proof. intros H. apply (f_equal head) in H. vm_compute in H. discriminate. Qed.

Lemma fallbackBackupPath_not_store parentId timestamp :
  Enhanced.fallbackBackupPath parentId timestamp ≠ TASKS_FILE.
Proof. intros H. apply (f_equal head) in H. vm_compute in H. discriminate. Qed.

Lemma revisedBackupPath_not_store timestamp :
  Enhanced.revisedBackupPath timestamp ≠ TASKS_FILE.
Proof. intros H. apply (f_equal head) in H. vm_compute in H. discriminate. Qed.

(** C9. In the enhanced version every successful parse, expansion or
    revision stores, before it returns, one timestamped backup file.  An
    accepted response is always backed up when the file can be written: the
    array parsed from the cleaned response text, as JSON, for a parse, a
    revision and a strict expansion; the joined lines of the cleaned
    response text for the expansion fallback.  Conversely every result
    other than [null] comes with exactly that file as the only change to
    the disk, and its path is never the task store; a call
    that returns [null] changes no file, and the original parser never
    writes. *)
Theorem backup_is_the_only_write {JSON : JsonRuntime} (w : world) (s : state) :
  (∀ path content data raw items,
     noApiKey w = false →
     files s !! path = Some content →
     axios_post w (prdRequest w true content) = Resolved data →
     classify data = Text raw →
     JSON_parse (cleanEnhanced raw) = Some (VArray items) →
     writable w (Enhanced.prdBackupPath path (dashTimestamp (clock w (ticks s)))) = true →
     resultOf (invoke w true (ParsePrd path) s) = Returned (VArray items)
     ∧ filesAfter (invoke w true (ParsePrd path) s)
       = <[Enhanced.prdBackupPath path (dashTimestamp (clock w (ticks s)))
           := JSON_stringify (VArray items)]> (files s))
  ∧ (∀ parentTask data raw subs,
       noApiKey w = false →
       axios_post w (expandRequest w true parentTask) = Resolved data →
       classify data = Text raw →
       JSON_parse (cleanEnhanced raw) = Some (VArray subs) →
       forallb isTitledObject subs = true →
       writable w (Enhanced.subtasksBackupPath (id parentTask)
                     (dashTimestamp (clock w (ticks s)))) = true →
       resultOf (invoke w true (ExpandTask parentTask) s)
       = Returned (VArray (map titleOf subs))
       ∧ filesAfter (invoke w true (ExpandTask parentTask) s)
         = <[Enhanced.subtasksBackupPath (id parentTask)
               (dashTimestamp (clock w (ticks s)))
             := JSON_stringify (VArray subs)]> (files s))
  ∧ (∀ parentTask data raw,
       noApiKey w = false →
       axios_post w (expandRequest w true parentTask) = Resolved data →
       classify data = Text raw →
       (∀ subs, JSON_parse (cleanEnhanced raw) = Some (VArray subs) →
                forallb isTitledObject subs = false) →
       Enhanced.fallbackLines (cleanEnhanced raw) ≠ [] →
       writable w (Enhanced.fallbackBackupPath (id parentTask)
                     (dashTimestamp (clock w (ticks s)))) = true →
       resultOf (invoke w true (ExpandTask parentTask) s)
       = Returned (VArray (map VString (Enhanced.fallbackLines (cleanEnhanced raw))))
       ∧ filesAfter (invoke w true (ExpandTask parentTask) s)
         = <[Enhanced.fallbackBackupPath (id parentTask)
               (dashTimestamp (clock w (ticks s)))
             := JsString.join [LF] (Enhanced.fallbackLines (cleanEnhanced raw))]>
             (files s))
  ∧ (∀ userPrompt pastTasks futureTasks data raw tasks,
       noApiKey w = false →
       axios_post w (reviseRequest w true userPrompt pastTasks futureTasks)
       = Resolved data →
       classify data = Text raw →
       JSON_parse (cleanEnhanced raw) = Some (VArray tasks) →
       forallb hasIdAndStringTitle tasks = true →
       writable w (Enhanced.revisedBackupPath (dashTimestamp (clock w (ticks s)))) = true →
       resultOf (invoke w true (ReviseTasks userPrompt pastTasks futureTasks) s)
       = Returned (VArray tasks)
       ∧ filesAfter (invoke w true (ReviseTasks userPrompt pastTasks futureTasks) s)
         = <[Enhanced.revisedBackupPath (dashTimestamp (clock w (ticks s)))
             := JSON_stringify (VArray tasks)]> (files s))
  ∧ (∀ c v,
       resultOf (invoke w true c s) = Returned v →
       v ≠ VNull →
       ∃ backupPath backup k req data raw,
         filesAfter (invoke w true c s) = <[backupPath := backup]> (files s)
         ∧ EvWrite backupPath backup ∈ traceAfter (invoke w true c s)
         ∧ backupPath ≠ TASKS_FILE
         ∧ (k = ticks s ∨ k = S (ticks s))
         ∧ requestOf w true s c = Some req
         ∧ axios_post w req = Resolved data
         ∧ classify data = Text raw
         ∧ match c with
           | ParsePrd path =>
               JSON_parse (cleanEnhanced raw) = Some v
               ∧ k = ticks s
               ∧ backupPath = Enhanced.prdBackupPath path (dashTimestamp (clock w k))
               ∧ backup = JSON_stringify v
           | ExpandTask parentTask =>
               (∃ subs,
                   JSON_parse (cleanEnhanced raw) = Some (VArray subs)
                   ∧ forallb isTitledObject subs = true
                   ∧ v = VArray (map titleOf subs)
                   ∧ k = ticks s
                   ∧ backupPath = Enhanced.subtasksBackupPath (id parentTask)
                                    (dashTimestamp (clock w k))
                   ∧ backup = JSON_stringify (VArray subs))
               ∨ (v = VArray (map VString (Enhanced.fallbackLines (cleanEnhanced raw)))
                  ∧ backupPath = Enhanced.fallbackBackupPath (id parentTask)
                                   (dashTimestamp (clock w k))
                  ∧ backup = JsString.join [LF]
                               (Enhanced.fallbackLines (cleanEnhanced raw)))
           | ReviseTasks _ _ _ =>
               JSON_parse (cleanEnhanced raw) = Some v
               ∧ k = ticks s
               ∧ backupPath = Enhanced.revisedBackupPath (dashTimestamp (clock w k))
               ∧ backup = JSON_stringify v
           end)
  ∧ (∀ c, resultOf (invoke w true c s) = Returned VNull →
          filesAfter (invoke w true c s) = files s)
  ∧ (∀ c, filesAfter (invoke w false c s) = files s)
  ∧ (∀ enhanced c,
       filesAfter (invoke w enhanced c s) !! TASKS_FILE = files s !! TASKS_FILE).
Proof.
  assert (∀ p b (m : gmap jsstring jsstring),
            p ≠ TASKS_FILE → <[p := b]> m !! TASKS_FILE = m !! TASKS_FILE) as Hframe.
  { intros p b m Hp. by rewrite lookup_insert_ne. }
  pose proof prdBackupPath_not_store as H1.
  pose proof subtasksBackupPath_not_store as H2.
  pose proof fallbackBackupPath_not_store as H3.
  pose proof revisedBackupPath_not_store as H4.
  unfold resultOf, filesAfter, traceAfter.
  split; [|split; [|split; [|split]]].
  - intros path content data raw items Hkey Hfile Hpost Hcl Hparse Hw.
    cbn [invoke]. rewrite Enhanced_parsePrd_run, Hkey, Hfile. cbv zeta.
    by rewrite Hpost, Hcl, Hparse, Hw.
  - intros parentTask data raw subs Hkey Hpost Hcl Hparse Hsubs Hw.
    cbn [invoke]. rewrite Enhanced_expand_run, Hkey. cbv zeta.
    by rewrite Hpost, Hcl, Hparse, Hsubs, Hw.
  - intros parentTask data raw Hkey Hpost Hcl Hstrict Hlines Hw.
    cbn [invoke]. rewrite Enhanced_expand_run, Hkey. cbv zeta.
    rewrite Hpost, Hcl.
    assert (∀ s', ticks s' = ticks s → files s' = files s →
              let r := tryCatch (Enhanced.fallbackToLines w parentTask (cleanEnhanced raw))
                         (fun error => log LError ;; ret VNull) s' in
              r.1 = Returned (VArray (map VString
                                        (Enhanced.fallbackLines (cleanEnhanced raw))))
              ∧ files r.2
                = <[Enhanced.fallbackBackupPath (id parentTask)
                      (dashTimestamp (clock w (ticks s)))
                    := JsString.join [LF] (Enhanced.fallbackLines (cleanEnhanced raw))]>
                    (files s)) as Hfb.
    { intros s' Hs' Hf'. cbv zeta. rewrite fallback_run. cbv zeta.
      destruct (Enhanced.fallbackLines (cleanEnhanced raw)) as [|l ls]; [done|].
      rewrite Hs', Hw. cbn [fst snd files stored ticked record]. by rewrite Hf'. }
    destruct (JSON_parse (cleanEnhanced raw)) as [[]|] eqn:Hparse;
      try (rewrite (Hstrict _ eq_refl));
      by apply Hfb.
  - intros userPrompt pastTasks futureTasks data raw tasks Hkey Hpost Hcl Hparse Hok Hw.
    cbn [invoke]. rewrite Enhanced_revise_run, Hkey. cbv zeta.
    by rewrite Hpost, Hcl, Hparse, Hok, Hw.
  - split; [intros c v Hv Hnn|split; [intros c Hv|split; [intros c|intros [] c]]].
    all: destruct c as [path|parentTask|userPrompt pastTasks futureTasks].
    all: cbn [invoke requestOf] in *;
      rewrite ?Enhanced_parsePrd_run, ?Enhanced_expand_run, ?Enhanced_revise_run,
        ?Original_parsePrd_run, ?Original_expand_run, ?Original_revise_run in *;
      cbv zeta in *.
    all: repeat case_match.
    all: repeat rewrite fallback_run in *; cbv zeta in *.
    all: repeat case_match.
    all: cbn [fst snd files trace ticks stored ticked record
              fmap option_fmap option_map] in *.
    all: simplify_eq; try done; auto.
    all: lazymatch goal with
         | Hc : classify ?d = Text ?r |- ∃ _ _ _ _ _ _, <[?p := ?b]> _ = _ ∧ _ =>
             lazymatch p with
             | context [clock _ ?k] =>
                 lazymatch goal with
                 | Hp : axios_post _ ?q = Resolved d |- _ => exists p, b, k, q, d, r
                 end
             end
         end.
    all: split; [reflexivity|].
    all: split; [apply elem_of_app; right; repeat constructor|].
    all: split; [first [apply H1 | apply H2 | apply H3 | apply H4]|].
    all: split; [first [by left | by right]|].
    all: split; [reflexivity|].
    all: split; [assumption|].
    all: split; [assumption|].
    all: lazymatch goal with
         | |- (∃ _, _ ∧ _ ∧ VArray (map titleOf ?subs) = _ ∧ _) ∨ _ => left; exists subs
         | |- _ ∨ _ => right
         | |- _ => idtac
         end.
    all: repeat match goal with
                | H : Enhanced.fallbackLines _ = _ :: _ |- _ => rewrite H
                end.
    all: repeat split; first [reflexivity | assumption].
Qed.

Lemma backup_is_the_only_write_witness :
  (resultOf (invoke (JSON := refJson) (worldAnswering (js "[{}, 7]") (fun _ => true)) true
               (ParsePrd (js "prd.txt")) someDisk)
   = Returned (VArray [VObject []; VNumber (decimalOfN 7)])
   ∧ filesAfter (invoke (JSON := refJson) (worldAnswering (js "[{}, 7]") (fun _ => true))
                   true (ParsePrd (js "prd.txt")) someDisk)
     = <[js "prd.txt.tasks.2024-01-02T03-04-05-678Z.json"
         := JSON_stringify (JsonRuntime := refJson)
              (VArray [VObject []; VNumber (decimalOfN 7)])]> (files someDisk))
  ∧ (resultOf (invoke (JSON := refJson)
                 (worldAnswering (jsq "[{'title': 'Roll dice'}]") (fun _ => true)) true
                 (ExpandTask someTask) someDisk)
     = Returned (VArray [VString (js "Roll dice")])
     ∧ filesAfter (invoke (JSON := refJson)
                     (worldAnswering (jsq "[{'title': 'Roll dice'}]") (fun _ => true)) true
                     (ExpandTask someTask) someDisk)
       = <[js "subtasks_4_2024-01-02T03-04-05-678Z.json"
           := JSON_stringify (JsonRuntime := refJson)
                (VArray [VObject [(js "title", VString (js "Roll dice"))]])]>
           (files someDisk))
  ∧ (resultOf (invoke (JSON := refJson)
                 (worldAnswering (js "Roll" ++ [LF] ++ js "Move")
                    (fun _ => true)) true
                 (ExpandTask someTask) someDisk)
     = Returned (VArray [VString (js "Roll"); VString (js "Move")])
     ∧ filesAfter (invoke (JSON := refJson)
                     (worldAnswering (js "Roll" ++ [LF] ++ js "Move")
                        (fun _ => true)) true
                     (ExpandTask someTask) someDisk)
       = <[js "subtasks_fallback_4_2024-01-02T03-04-05-678Z.txt"
           := (js "Roll" ++ [LF] ++ js "Move")]> (files someDisk))
  ∧ (resultOf (invoke (JSON := refJson)
                 (worldAnswering (jsq "[{'id': 1, 'title': 'Roll dice'}]") (fun _ => true))
                 true (ReviseTasks (js "use dice") [] [someTask]) someDisk)
     = Returned (VArray [VObject [(js "id", VNumber (decimalOfN 1));
                                  (js "title", VString (js "Roll dice"))]])
     ∧ filesAfter (invoke (JSON := refJson)
                     (worldAnswering (jsq "[{'id': 1, 'title': 'Roll dice'}]")
                        (fun _ => true))
                     true (ReviseTasks (js "use dice") [] [someTask]) someDisk)
       = <[js "revised_tasks_2024-01-02T03-04-05-678Z.json"
           := JSON_stringify (JsonRuntime := refJson)
                (VArray [VObject [(js "id", VNumber (decimalOfN 1));
                                  (js "title", VString (js "Roll dice"))]])]>
           (files someDisk)).
Proof.
  split; [|split; [|split]].
  - apply (proj1 (backup_is_the_only_write (JSON := refJson)
                    (worldAnswering (js "[{}, 7]") (fun _ => true)) someDisk)
             (js "prd.txt") (js "Build a game") (answerWith (js "[{}, 7]")) (js "[{}, 7]")
             [VObject []; VNumber (decimalOfN 7)]);
      vm_compute; reflexivity.
  - apply (proj1 (proj2 (backup_is_the_only_write (JSON := refJson)
                           (worldAnswering (jsq "[{'title': 'Roll dice'}]")
                              (fun _ => true)) someDisk))
             someTask (answerWith (jsq "[{'title': 'Roll dice'}]"))
             (jsq "[{'title': 'Roll dice'}]")
             [VObject [(js "title", VString (js "Roll dice"))]]);
      vm_compute; reflexivity.
  - apply (proj1 (proj2 (proj2 (backup_is_the_only_write (JSON := refJson)
                                  (worldAnswering (js "Roll" ++ [LF] ++ js "Move")
                                     (fun _ => true)) someDisk)))
             someTask (answerWith (js "Roll" ++ [LF] ++ js "Move"))
             (js "Roll" ++ [LF] ++ js "Move"));
      try (vm_compute; reflexivity).
    + intros subs H. vm_compute in H. discriminate H.
    + vm_compute. discriminate.
  - apply (proj1 (proj2 (proj2 (proj2 (backup_is_the_only_write (JSON := refJson)
                                         (worldAnswering
                                            (jsq "[{'id': 1, 'title': 'Roll dice'}]")
                                            (fun _ => true)) someDisk))))
             (js "use dice") [] [someTask]
             (answerWith (jsq "[{'id': 1, 'title': 'Roll dice'}]"))
             (jsq "[{'id': 1, 'title': 'Roll dice'}]")
             [VObject [(js "id", VNumber (decimalOfN 1));
                       (js "title", VString (js "Roll dice"))]]);
      vm_compute; reflexivity.
Defined.

(** ** Agreement of the two cleanups *)

(** C8. On a response of the form ["```json\n<body>\n```"] whose body holds
    no fence, the cleanup of the enhanced parser (the fenced block replaced
    by its body) and the cleanup of the original parser (the markers
    deleted) give the same string, the trimmed body. *)
Theorem cleanups_agree_on_fenced_json (body : jsstring) :
  JsString.includes fence body = false →
  cleanEnhanced (fencedJson body) = JsString.trim body
  ∧ cleanOriginal (fencedJson body) = JsString.trim body.
Proof.
  intros Hfree. split.
  - unfold cleanEnhanced. by rewrite replaceFenced_fenced.
  - by apply cleanOriginal_fenced.
Qed.

Lemma cleanups_agree_on_fenced_json_witness :
  cleanEnhanced (fencedJson (jsq "[{'title': 'A'}] ")) = jsq "[{'title': 'A'}]"
  ∧ cleanOriginal (fencedJson (jsq "[{'title': 'A'}] ")) = jsq "[{'title': 'A'}]".
Proof.
  apply (cleanups_agree_on_fenced_json (jsq "[{'title': 'A'}] ")).
  reflexivity.
Defined.

(** ** The task engine *)

Section EngineFacts.
Import Engine.

Lemma rank_inj p q : rank p = rank q → p = q.
Proof. by destruct p, q. Qed.

#[local] Instance precedes_total : Total precedes.
Proof. intros a b. unfold precedes. lia. Qed.

#[local] Instance precedes_trans : Transitive precedes.
Proof. intros a b c. unfold precedes. lia. Qed.

Lemma precedes_antisym a b :
  precedes a b → precedes b a → priority a = priority b ∧ id a = id b.
Proof.
  unfold precedes. intros H1 H2.
  assert (rank (priority a) = rank (priority b) ∧ id a = id b) as [Hr Hi] by lia.
  split; [by apply rank_inj|done].
Qed.

Lemma isTodo_spec t : isTodo t = true ↔ status t = Todo.
Proof. unfold isTodo. by destruct (status t). Qed.

Lemma isDone_spec t : isDone t = true ↔ status t = Done.
Proof. unfold isDone. by destruct (status t). Qed.

Lemma resolvesToDone_spec s d :
  resolvesToDone s d = true ↔ ∃ u, u ∈ s ∧ id u = d ∧ status u = Done.
Proof.
  unfold resolvesToDone. rewrite existsb_exists. split.
  - intros (u & Hin & [Hid Hdone]%andb_true_iff). exists u.
    rewrite list_elem_of_In. split; [done|].
    split; [by apply N.eqb_eq|by apply isDone_spec].
  - intros (u & Hin & Hid & Hdone). exists u.
    rewrite <-list_elem_of_In. split; [done|].
    apply andb_true_iff. split; [by apply N.eqb_eq|by apply isDone_spec].
Qed.

Lemma isSatisfied_spec t s :
  isSatisfied t s = true ↔
  ∀ d, d ∈ dependsOn t → ∃ u, u ∈ s ∧ id u = d ∧ status u = Done.
Proof.
  unfold isSatisfied. rewrite forallb_forall. split.
  - intros H d Hd. apply resolvesToDone_spec, H. by apply list_elem_of_In.
  - intros H d Hd. apply resolvesToDone_spec, H. by apply list_elem_of_In.
Qed.

Lemma candidates_spec s t :
  t ∈ candidates s ↔ t ∈ s ∧ status t = Todo ∧ isSatisfied t s = true.
Proof.
  unfold candidates. rewrite list_elem_of_In, filter_In, <-list_elem_of_In.
  rewrite andb_true_iff, isTodo_spec. tauto.
Qed.

(** The head of the sorted candidates precedes every candidate. *)
Lemma selectNext_least s t :
  selectNext s = Some t →
  t ∈ candidates s ∧ ∀ u, u ∈ candidates s → precedes t u.
Proof.
  unfold selectNext. intros Hhead.
  pose proof (StronglySorted_merge_sort precedes (candidates s)) as Hsorted.
  pose proof (merge_sort_Permutation precedes (candidates s)) as Hperm.
  destruct (merge_sort precedes (candidates s)) as [|x rest]; [done|].
  cbn in Hhead. simplify_eq.
  apply StronglySorted_inv in Hsorted as [_ Hall].
  split.
  - rewrite <-Hperm. by left.
  - intros u Hu. rewrite <-Hperm in Hu.
    apply elem_of_cons in Hu as [->|Hu].
    + destruct (total precedes t t); done.
    + by eapply Forall_forall in Hall.
Qed.

Lemma selectNext_None s : selectNext s = None ↔ candidates s = [].
Proof.
  unfold selectNext.
  pose proof (merge_sort_Permutation precedes (candidates s)) as Hperm.
  split.
  - intros Hhead. destruct (merge_sort precedes (candidates s)); [|done].
    by apply Permutation_nil_l in Hperm.
  - intros E. rewrite E in *. by apply Permutation_nil_r in Hperm as ->.
Qed.

Lemma same_id_same_task (s : store) a b :
  NoDup (map id s) → a ∈ s → b ∈ s → id a = id b → a = b.
Proof.
  induction s as [|x s IH]; intros Hnd Ha Hb Hid; [by apply elem_of_nil in Ha|].
  cbn [map] in Hnd. apply NoDup_cons in Hnd as [Hx Hnd].
  apply elem_of_cons in Ha as [->|Ha]; apply elem_of_cons in Hb as [->|Hb].
  - done.
  - destruct Hx. rewrite Hid. by apply (list_elem_of_fmap_2 id).
  - destruct Hx. rewrite <-Hid. by apply (list_elem_of_fmap_2 id).
  - by apply IH.
Qed.

End EngineFacts.

(** C6. [selectNext] considers exactly the tasks with status [todo] whose
    dependency lists contain only identifiers of tasks with status [done];
    it orders them by priority rank (high=3, medium=2, low=1) descending,
    then identifier ascending, and returns the first: none exactly when
    there is no such task, and otherwise a candidate that precedes every
    candidate.  That order is total and
    transitive, and two tasks that precede each other have the same
    identifier, so with unique identifiers the selected task is the only
    least candidate.  The selector is a function of the snapshot and
    returns nothing but the task. *)
Theorem selectNext_spec (s : Engine.store) :
  (∀ t, t ∈ Engine.candidates s ↔
        t ∈ s ∧ status t = Todo
        ∧ ∀ d, d ∈ dependsOn t → ∃ u, u ∈ s ∧ id u = d ∧ status u = Done)
  ∧ (Engine.rank High = 3 ∧ Engine.rank Medium = 2 ∧ Engine.rank Low = 1)
  ∧ (∃ ordered,
       ordered ≡ₚ Engine.candidates s
       ∧ StronglySorted Engine.precedes ordered
       ∧ Engine.selectNext s = head ordered)
  ∧ (Engine.selectNext s = None ↔ Engine.candidates s = [])
  ∧ (∀ t, Engine.selectNext s = Some t →
          t ∈ Engine.candidates s
          ∧ ∀ u, u ∈ Engine.candidates s → Engine.precedes t u)
  ∧ (∀ a b, Engine.precedes a b ∨ Engine.precedes b a)
  ∧ (∀ a b c, Engine.precedes a b → Engine.precedes b c → Engine.precedes a c)
  ∧ (∀ a b, Engine.precedes a b → Engine.precedes b a → priority a = priority b ∧ id a = id b)
  ∧ (NoDup (map id s) →
     ∀ t t',
       Engine.selectNext s = Some t →
       t' ∈ Engine.candidates s →
       (∀ u, u ∈ Engine.candidates s → Engine.precedes t' u) →
       t' = t).
Proof.
  split; [|split; [|split; [|split; [|split; [|split; [|split; [|split]]]]]]].
  - intros t. rewrite candidates_spec, isSatisfied_spec. tauto.
  - done.
  - exists (merge_sort Engine.precedes (Engine.candidates s)).
    split; [apply merge_sort_Permutation|].
    split; [|done].
    apply (@StronglySorted_merge_sort _ _ _ precedes_trans precedes_total).
  - apply selectNext_None.
  - apply selectNext_least.
  - apply precedes_total.
  - apply precedes_trans.
  - apply precedes_antisym.
  - intros Hnd t t' Hsel Ht' Hleast'.
    apply selectNext_least in Hsel as [Ht Hleast].
    destruct (precedes_antisym t t' (Hleast _ Ht') (Hleast' _ Ht)) as [_ Hid].
    apply (same_id_same_task s); [done| | |done].
    + exact (proj1 (proj1 (candidates_spec _ _) Ht')).
    + exact (proj1 (proj1 (candidates_spec _ _) Ht)).
Qed.

(** The scenarios of the specification. *)
Example selectNext_tie_goes_to_lower_id :
  id <$> Engine.selectNext [taskWith 7 High Todo []; taskWith 3 High Todo []] = Some 3%N.
Proof. reflexivity. Qed.

Example selectNext_prefers_satisfied_higher_priority :
  id <$> Engine.selectNext
           [taskWith 1 High Done []; taskWith 2 Medium Todo [1%N]; taskWith 3 Low Todo []]
  = Some 2%N.
Proof. reflexivity. Qed.

Lemma selectNext_spec_witness :
  Engine.selectNext [taskWith 7 High Todo []; taskWith 3 High Todo []]
  = Some (taskWith 3 High Todo [])
  ∧ taskWith 3 High Todo [] ∈ Engine.candidates [taskWith 7 High Todo []; taskWith 3 High Todo []]
  ∧ ∀ u, u ∈ Engine.candidates [taskWith 7 High Todo []; taskWith 3 High Todo []] →
         Engine.precedes (taskWith 3 High Todo []) u.
Proof.
  split; [reflexivity|].
  apply (proj1 (proj2 (proj2 (proj2 (proj2
           (selectNext_spec [taskWith 7 High Todo []; taskWith 3 High Todo []])))))).
  reflexivity.
Defined.

Section MergeFacts.
Import Engine.

Lemma hasId_spec l d : hasId l d = true ↔ ∃ u, u ∈ l ∧ id u = d.
Proof.
  unfold hasId. rewrite existsb_exists. split.
  - intros (u & Hin & Hid). exists u. rewrite list_elem_of_In.
    split; [done|by apply N.eqb_eq].
  - intros (u & Hin & Hid). exists u. rewrite <-list_elem_of_In.
    split; [done|by apply N.eqb_eq].
Qed.

Lemma past_spec s fromId u : u ∈ past s fromId ↔ u ∈ s ∧ (id u < fromId)%N.
Proof.
  unfold past. rewrite list_elem_of_In, filter_In, <-list_elem_of_In.
  by rewrite N.ltb_lt.
Qed.

Lemma resolves_false s fromId proposed d :
  resolves s fromId proposed d = false ↔
  ¬ (∃ u, u ∈ s ∧ (id u < fromId)%N ∧ id u = d) ∧ ¬ (∃ u, u ∈ proposed ∧ id u = d).
Proof.
  unfold resolves. rewrite orb_false_iff, <-!not_true_iff_false, !hasId_spec.
  split; intros [Hp Hq]; (split; [|done]); intros (u & Hu); apply Hp; exists u.
  - rewrite past_spec. tauto.
  - rewrite past_spec in Hu. tauto.
Qed.

(** The violations are exactly the dangling references of the proposal. *)
Lemma violations_spec s fromId proposed t d :
  Reference t d ∈ violations s fromId proposed ↔
  ∃ task, task ∈ proposed ∧ id task = t ∧ d ∈ dependsOn task
          ∧ resolves s fromId proposed d = false.
Proof.
  unfold violations. rewrite list_elem_of_In, in_flat_map. split.
  - intros (task & Htask & Hin). apply in_map_iff in Hin as (d' & Heq & Hd).
    apply filter_In in Hd as [Hd Hres]. apply negb_true_iff in Hres.
    injection Heq as <- <-. exists task. by rewrite !list_elem_of_In.
  - intros (task & Htask & <- & Hd & Hres). exists task.
    rewrite <-list_elem_of_In. split; [done|].
    apply in_map_iff. exists d. split; [done|].
    apply filter_In. rewrite <-list_elem_of_In, negb_true_iff. done.
Qed.

End MergeFacts.

(** C7. [mergeRevision] is all-or-nothing: if some dependency identifier of
    the proposal resolves neither into the past segment nor into the
    proposal itself, the result is an IntegrityError, the store is as it
    was, and the error lists every violated reference (each pair of a
    proposed task and a dependency of it that resolves nowhere), not only
    the first. *)
Theorem mergeRevision_all_or_nothing (s : Engine.store) (fromId : N)
    (proposed : list task) (task0 : task) (d0 : N) :
  task0 ∈ proposed →
  d0 ∈ dependsOn task0 →
  ¬ (∃ u, u ∈ s ∧ (id u < fromId)%N ∧ id u = d0) →
  ¬ (∃ u, u ∈ proposed ∧ id u = d0) →
  ∃ violated,
    Engine.mergeRevision s fromId proposed = Engine.Err (Engine.IntegrityError violated)
    ∧ Engine.storeAfter s (Engine.mergeRevision s fromId proposed) = s
    ∧ ∀ t d,
        Engine.Reference t d ∈ violated ↔
        ∃ task, task ∈ proposed ∧ id task = t ∧ d ∈ dependsOn task
                ∧ ¬ (∃ u, u ∈ s ∧ (id u < fromId)%N ∧ id u = d)
                ∧ ¬ (∃ u, u ∈ proposed ∧ id u = d).
Proof.
  intros Htask Hd Hpast Hprop.
  assert (Engine.Reference (id task0) d0 ∈ Engine.violations s fromId proposed) as Hv.
  { apply violations_spec. exists task0. repeat split; try done.
    by apply resolves_false. }
  exists (Engine.violations s fromId proposed).
  unfold Engine.mergeRevision.
  destruct (Engine.violations s fromId proposed) as [|v vs] eqn:E.
  { by apply elem_of_nil in Hv. }
  split; [done|]. split; [done|].
  intros t d. rewrite <-E, violations_spec.
  split; intros (task & H1 & H2 & H3 & H4); exists task; repeat split; try done.
  - by apply (resolves_false s fromId proposed d).
  - by apply (resolves_false s fromId proposed d).
  - by apply resolves_false.
Qed.

(** The scenario of the specification: [fromId = 5], past tasks 1 to 4, a
    proposal whose task 5 depends on 99 and on 98, which exist nowhere. *)
Lemma mergeRevision_all_or_nothing_witness :
  Engine.mergeRevision
    [taskWith 1 High Done []; taskWith 2 High Done []; taskWith 3 High Done [];
     taskWith 4 High InProgress []; taskWith 5 Low Todo []]
    5 [taskWith 5 High Todo [99%N; 1%N; 98%N]]
  = Engine.Err (Engine.IntegrityError [Engine.Reference 5 99; Engine.Reference 5 98])
  ∧ ∃ violated,
      Engine.mergeRevision
        [taskWith 1 High Done []; taskWith 2 High Done []; taskWith 3 High Done [];
         taskWith 4 High InProgress []; taskWith 5 Low Todo []]
        5 [taskWith 5 High Todo [99%N; 1%N; 98%N]]
      = Engine.Err (Engine.IntegrityError violated)
      ∧ Engine.Reference 5 98 ∈ violated.
Proof.
  split; [reflexivity|].
  destruct (mergeRevision_all_or_nothing
              [taskWith 1 High Done []; taskWith 2 High Done []; taskWith 3 High Done [];
               taskWith 4 High InProgress []; taskWith 5 Low Todo []]
              5 [taskWith 5 High Todo [99%N; 1%N; 98%N]]
              (taskWith 5 High Todo [99%N; 1%N; 98%N]) 99)
    as (violated & Herr & _ & Hall).
  - by left.
  - by left.
  - intros (u & Hu & _ & Hid). revert Hid.
    repeat (apply elem_of_cons in Hu as [->|Hu]; [discriminate|]).
    by apply elem_of_nil in Hu.
  - intros (u & Hu & Hid). revert Hid.
    repeat (apply elem_of_cons in Hu as [->|Hu]; [discriminate|]).
    by apply elem_of_nil in Hu.
  - exists violated. split; [exact Herr|].
    apply Hall. exists (taskWith 5 High Todo [99%N; 1%N; 98%N]).
    split; [by left|]. split; [reflexivity|].
    split; [by do 2 right; left|].
    split.
    + intros (u & Hu & _ & Hid). revert Hid.
      repeat (apply elem_of_cons in Hu as [->|Hu]; [discriminate|]).
      by apply elem_of_nil in Hu.
    + intros (u & Hu & Hid). revert Hid.
      repeat (apply elem_of_cons in Hu as [->|Hu]; [discriminate|]).
      by apply elem_of_nil in Hu.
Defined.

(* ===================================================================== *)
(** * Part III. Further properties of the parser *)
(* ===================================================================== *)

(** ** Occurrences of a pattern *)

Section OccurrenceFacts.
Import JsString.

Lemma startsWith_spec p s : startsWith p s = true ↔ ∃ v, s = p ++ v.
Proof.
  split.
  - intros H. destruct (stripPrefix p s) as [r|] eqn:E.
    + exists r. by apply stripPrefix_Some.
    + apply stripPrefix_None in E. congruence.
  - intros [v ->]. apply startsWith_app.
Qed.

Lemma includes_spec p s : includes p s = true ↔ ∃ u v, s = u ++ p ++ v.
Proof.
  split.
  - induction s as [|c s IH]; cbn [includes]; rewrite orb_true_iff.
    + intros [H|H]; [|done]. apply startsWith_spec in H as [v ->]. by exists [], v.
    + intros [H|H].
      * apply startsWith_spec in H as [v ->]. by exists [], v.
      * destruct (IH H) as (u & v & ->). by exists (c :: u), v.
  - intros (u & v & ->). induction u as [|c u IH].
    + cbn [app]. destruct (p ++ v) eqn:E; cbn [includes]; rewrite <-E;
        by rewrite startsWith_app.
    + cbn [app includes]. rewrite IH. apply orb_true_r.
Qed.

(** A text without the pattern has no part with the pattern. *)
Lemma includes_false_infix p a m b :
  includes p (a ++ m ++ b) = false → includes p m = false.
Proof.
  intros H. apply not_true_iff_false. intros (u & v & ->)%includes_spec.
  apply not_true_iff_false in H. apply H, includes_spec.
  exists (a ++ u), (v ++ b). by rewrite <-!app_assoc.
Qed.

Lemma includes_false_drop p s i :
  includes p s = false → startsWith p (drop i s) = false.
Proof.
  intros H. rewrite <-(take_drop i s), <-(app_nil_r (drop i s)) in H.
  apply includes_false_infix in H.
  destruct (drop i s); cbn [includes] in H; by apply orb_false_iff in H as [? _].
Qed.

Lemma includes_longer p q s :
  includes p s = false → includes (p ++ q) s = false.
Proof.
  intros H. apply not_true_iff_false. intros (u & v & ->)%includes_spec.
  apply not_true_iff_false in H. apply H, includes_spec.
  exists u, (q ++ v). by rewrite <-!app_assoc.
Qed.

(** Without an occurrence nothing is replaced. *)
Lemma replaceAll_absent p r s : includes p s = false → replaceAll p r s = s.
Proof.
  intros H. rewrite <-(app_nil_r s) at 1. rewrite replaceAll_copy; [by rewrite app_nil_r|].
  intros i _. rewrite app_nil_r. by apply includes_false_drop.
Qed.

Lemma cutAtFirst_absent p s : includes p s = false → cutAtFirst p s = None.
Proof.
  induction s as [|c s IH]; cbn [includes cutAtFirst]; intros [H1 H2]%orb_false_iff.
  - apply stripPrefix_None in H1. by rewrite H1.
  - apply stripPrefix_None in H1. by rewrite H1, IH.
Qed.

Lemma matchFenced_needs_fence s : startsWith fence s = false → matchFenced s = None.
Proof.
  intros H. apply stripPrefix_None in H. unfold matchFenced, matchOpen. by rewrite H.
Qed.

(** Where no fenced block starts inside [a], [a] is copied. *)
Lemma replaceFenced_copy a t :
  (∀ i, i < length a → matchFenced (drop i a ++ t) = None) →
  replaceFenced (a ++ t) = a ++ replaceFenced t.
Proof.
  unfold replaceFenced. induction a as [|c a IH]; intros Hno; [done|].
  change ((c :: a) ++ t) with (c :: (a ++ t)). cbn [replaceFencedFrom].
  change (c :: (a ++ t)) with (drop 0 (c :: a) ++ t).
  rewrite (Hno 0) by (simpl; lia). simpl. f_equal.
  apply IH. intros i Hi. apply (Hno (S i)). simpl; lia.
Qed.

Lemma replaceFenced_absent s : includes fence s = false → replaceFenced s = s.
Proof.
  intros H. rewrite <-(app_nil_r s) at 1. rewrite replaceFenced_copy; [by rewrite app_nil_r|].
  intros i _. rewrite app_nil_r. by apply matchFenced_needs_fence, includes_false_drop.
Qed.

(** *** [trim] keeps a part of the text *)

Lemma trimStart_suffix s : ∃ a, s = a ++ trimStart s.
Proof.
  induction s as [|c s [a IH]]; [by exists []|].
  cbn [trimStart]. destruct (isWhiteSpace c).
  - exists (c :: a). cbn [app]. by rewrite <-IH.
  - by exists [].
Qed.

Lemma trimEnd_prefix s : ∃ b, s = trimEnd s ++ b.
Proof.
  unfold trimEnd. destruct (trimStart_suffix (rev s)) as [a Ha].
  exists (rev a). rewrite <-rev_app_distr, <-Ha. by rewrite rev_involutive.
Qed.

Lemma trim_infix s : ∃ a b, s = a ++ trim s ++ b.
Proof.
  unfold trim. destruct (trimStart_suffix s) as [a Ha].
  destruct (trimEnd_prefix (trimStart s)) as [b Hb].
  exists a, b. by rewrite <-Hb.
Qed.

Lemma includes_trim p s : includes p s = false → includes p (trim s) = false.
Proof.
  intros H. destruct (trim_infix s) as (a & b & E). rewrite E in H.
  by apply includes_false_infix in H.
Qed.

End OccurrenceFacts.

(** ** The cleanups *)

Section CleanupFacts.
Import JsString.

Lemma deleteFence_match t : replaceAll fence [] (fence ++ t) = replaceAll fence [] t.
Proof. by rewrite replaceAll_match. Qed.

Lemma deleteFence_skip c s :
  startsWith fence (c :: s) = false →
  replaceAll fence [] (c :: s) = c :: replaceAll fence [] s.
Proof.
  intros H. change (c :: s) with ([c] ++ s). rewrite replaceAll_copy; [done|].
  intros [|i] Hi; [done|]. simpl in Hi. lia.
Qed.

(** Deleting fences puts no backtick at the head of a text that had none. *)
Lemma deleteFence_head s :
  startsWith [96%N] s = false → startsWith [96%N] (replaceAll fence [] s) = false.
Proof.
  destruct s as [|c s]; [done|]. cbn [startsWith]. rewrite andb_true_r. intros Hc.
  rewrite deleteFence_skip.
  - cbn [startsWith]. by rewrite Hc.
  - unfold fence. cbn [startsWith]. by rewrite Hc.
Qed.

Lemma deleteFence_leaves_none_upto n s :
  length s ≤ n → includes fence (replaceAll fence [] s) = false.
Proof.
  revert s. induction n as [|n IH]; intros s Hlen.
  { destruct s; [done|]. simpl in Hlen. lia. }
  destruct s as [|c s]; [done|].
  destruct (startsWith fence (c :: s)) eqn:Hstart.
  - apply startsWith_spec in Hstart as [t Ht]. rewrite Ht, deleteFence_match.
    apply IH. apply (f_equal length) in Ht. rewrite length_app in Ht.
    simpl in Ht, Hlen. lia.
  - rewrite deleteFence_skip by done. cbn [includes].
    rewrite (IH s) by (simpl in Hlen; lia). rewrite orb_false_r.
    unfold fence in *. cbn [startsWith] in *.
    destruct (96 =? c)%N; [|done]. cbn [andb] in *.
    destruct s as [|c1 s]; [done|].
    destruct (startsWith [96%N] (c1 :: s)) eqn:H1.
    + cbn [startsWith] in H1, Hstart. rewrite andb_true_r in H1.
      rewrite H1 in Hstart. cbn [andb] in Hstart.
      assert (startsWith [96%N] s = false) as Hs.
      { destruct s; [done|]. cbn [startsWith] in *. by rewrite andb_true_r in *. }
      rewrite deleteFence_skip.
      * cbn [startsWith]. rewrite H1. cbn [andb].
        pose proof (deleteFence_head s Hs) as Hd.
        destruct (replaceAll _ _ s); [done|]. cbn [startsWith] in *.
        exact Hd.
      * unfold fence. cbn [startsWith]. rewrite H1. cbn [andb].
        destruct s; [done|]. cbn [startsWith] in *.
        rewrite andb_true_r in Hs. by rewrite Hs.
    + pose proof (deleteFence_head _ H1) as Hd.
      destruct (replaceAll _ _ (c1 :: s)) as [|d ds]; [done|].
      cbn [startsWith] in *. rewrite andb_true_r in Hd. by rewrite Hd.
Qed.

Lemma deleteFence_leaves_none s : includes fence (replaceAll fence [] s) = false.
Proof. by apply (deleteFence_leaves_none_upto (length s)). Qed.

End CleanupFacts.

(** X1. The text the original parser hands to [JSON.parse] never holds a
    fence: whatever the response, no three backticks in a row survive the
    cleanup. *)
Theorem cleanOriginal_leaves_no_fence (text : jsstring) :
  JsString.includes fence (cleanOriginal text) = false.
Proof.
  unfold cleanOriginal. apply includes_trim, deleteFence_leaves_none.
Qed.

(** X2. On a response without any fence both cleanups only trim, so the two
    versions of the parser parse the same text. *)
Theorem cleanups_only_trim_unfenced (text : jsstring) :
  JsString.includes fence text = false →
  cleanOriginal text = JsString.trim text
  ∧ cleanEnhanced text = JsString.trim text.
Proof.
  intros H. unfold cleanOriginal, cleanEnhanced. split.
  - rewrite (replaceAll_absent fence_json); [by rewrite replaceAll_absent|].
    by apply (includes_longer fence json_word).
  - by rewrite replaceFenced_absent.
Qed.

Lemma cleanups_only_trim_unfenced_witness :
  cleanOriginal (jsq " [{'title': 'A'}] ") = jsq "[{'title': 'A'}]"
  ∧ cleanEnhanced (jsq " [{'title': 'A'}] ") = jsq "[{'title': 'A'}]".
Proof.
  apply (cleanups_only_trim_unfenced (jsq " [{'title': 'A'}] ")).
  reflexivity.
Defined.

Section FenceShapes.
Import JsString.

Lemma includes_longer_l q p s :
  includes p s = false → includes (q ++ p) s = false.
Proof.
  intros H. apply not_true_iff_false. intros (u & v & ->)%includes_spec.
  apply not_true_iff_false in H. apply H, includes_spec.
  exists (u ++ q), v. by rewrite <-!app_assoc.
Qed.

(** The closing fence of a body without fences is the first one found. *)
Lemma cutAtFirst_close body :
  includes fence body = false →
  cutAtFirst (LF :: fence) (body ++ [LF] ++ fence) = Some (body, []).
Proof.
  intros Hfree.
  change (body ++ [LF] ++ fence) with (body ++ (LF :: fence) ++ []).
  apply cutAtFirst_end. intros i Hi.
  destruct (drop i body) as [|c r] eqn:E.
  { apply (f_equal length) in E. rewrite length_drop in E. simpl in E. lia. }
  assert (r = drop (S i) body) as ->.
  { replace (S i) with (i + 1) by lia. by rewrite <-drop_drop, E. }
  change ((c :: drop (S i) body) ++ (LF :: fence) ++ [])
    with (c :: (drop (S i) body ++ LF :: fence)).
  change (LF :: fence) with ([LF] ++ fence).
  cbn [app startsWith]. destruct (LF =? c)%N; [|done].
  cbn [andb]. by apply fence_free_before_LF.
Qed.

Lemma matchOpen_plain t : matchOpen (fence ++ [LF] ++ t) = Some t.
Proof. reflexivity. Qed.

Lemma replaceFenced_plain body :
  includes fence body = false → replaceFenced (fencedPlain body) = body.
Proof.
  intros Hfree.
  assert (matchFenced (fencedPlain body) = Some (body, [])) as Hm.
  { unfold matchFenced, fencedPlain. rewrite matchOpen_plain.
    by apply cutAtFirst_close. }
  unfold fencedPlain in *.
  change (fence ++ ?t) with (96%N :: (drop 1 fence ++ t)) in *.
  rewrite (replaceFenced_match _ _ _ _ Hm).
  rewrite replaceFencedFrom_all; [by rewrite app_nil_r|].
  simpl. lia.
Qed.

Lemma cleanOriginal_plain body :
  includes fence body = false → cleanOriginal (fencedPlain body) = trim body.
Proof.
  intros Hfree. unfold cleanOriginal, fencedPlain.
  assert (replaceAll fence_json [] (fence ++ [LF] ++ body ++ [LF] ++ fence)
          = fence ++ [LF] ++ body ++ [LF] ++ fence) as ->.
  { change (fence ++ [LF] ++ body ++ [LF] ++ fence)
      with ((fence ++ LF :: body) ++ LF :: fence) at 1.
    rewrite replaceAll_copy; [done|].
    intros [|[|[|[|i]]]] _; try done.
    change (drop (S (S (S (S i)))) (fence ++ LF :: body)) with (drop i body).
    destruct (startsWith _ _) eqn:E; [|done].
    apply (startsWith_app_l fence json_word) in E.
    by rewrite fence_free_before_LF in E. }
  rewrite replaceAll_match by done. cbn [app].
  change (LF :: body ++ LF :: fence) with ((LF :: body) ++ LF :: fence).
  rewrite replaceAll_copy.
  - change (replaceAll fence [] (LF :: fence)) with [LF]. apply trim_between_LF.
  - intros [|i] _; [done|]. cbn [drop]. by apply fence_free_before_LF.
Qed.

(** *** A fence that is never closed *)

Lemma cleanOriginal_unclosed body :
  includes fence body = false → cleanOriginal (unclosedJson body) = trim body.
Proof.
  intros Hfree. unfold cleanOriginal, unclosedJson.
  rewrite replaceAll_match by done. cbn [app].
  assert (includes fence (LF :: body) = false) as Hlf.
  { cbn [includes]. by rewrite Hfree. }
  rewrite (replaceAll_absent fence_json) by by apply (includes_longer fence json_word).
  rewrite replaceAll_absent by done.
  unfold trim. by rewrite trimStart_ws.
Qed.

Lemma replaceFenced_unclosed body :
  includes fence body = false → replaceFenced (unclosedJson body) = unclosedJson body.
Proof.
  intros Hfree. rewrite <-(app_nil_r (unclosedJson body)) at 1.
  rewrite replaceFenced_copy; [by rewrite app_nil_r|].
  intros i _. rewrite app_nil_r. unfold unclosedJson.
  destruct i as [|[|[|[|[|[|[|[|i]]]]]]]]; try by apply matchFenced_needs_fence.
  - unfold matchFenced. rewrite drop_0, matchOpen_json.
    by apply cutAtFirst_absent, (includes_longer_l [LF]).
  - change (drop (S (S (S (S (S (S (S (S i)))))))) (fence_json ++ [LF] ++ body))
      with (drop i body).
    by apply matchFenced_needs_fence, includes_false_drop.
Qed.

(** *** [trim] once more *)

Lemma trimStart_snoc s c :
  trimStart (s ++ [c])
  = match trimStart s with
    | [] => if isWhiteSpace c then [] else [c]
    | x => x ++ [c]
    end.
Proof.
  induction s as [|a s IH]; simpl; [done|].
  destruct (isWhiteSpace a); done.
Qed.

Lemma trimEnd_cons c s :
  trimEnd (c :: s)
  = match trimEnd s with
    | [] => if isWhiteSpace c then [] else [c]
    | x => c :: x
    end.
Proof.
  unfold trimEnd. cbn [rev]. rewrite trimStart_snoc.
  destruct (trimStart (rev s)) as [|x r] eqn:E; cbn [rev].
  - by destruct (isWhiteSpace c).
  - rewrite rev_app_distr. cbn [rev app].
    destruct (rev r ++ [x]) eqn:E'; [|done].
    symmetry in E'. by apply app_cons_not_nil in E'.
Qed.

Lemma trimEnd_cons_ink c s :
  isWhiteSpace c = false → trimEnd (c :: s) = c :: trimEnd s.
Proof. intros H. rewrite trimEnd_cons, H. by destruct (trimEnd s). Qed.

Lemma trimStart_head s :
  match trimStart s with
  | [] => True
  | c :: _ => isWhiteSpace c = false
  end.
Proof.
  induction s as [|c s IH]; [done|]. cbn [trimStart].
  by destruct (isWhiteSpace c) eqn:E.
Qed.

Lemma trimStart_idem s : trimStart (trimStart s) = trimStart s.
Proof.
  pose proof (trimStart_head s) as H.
  destruct (trimStart s) as [|c r]; [done|]. cbn [trimStart]. by rewrite H.
Qed.

Lemma trimEnd_idem s : trimEnd (trimEnd s) = trimEnd s.
Proof. unfold trimEnd. by rewrite rev_involutive, trimStart_idem. Qed.

Lemma trim_idem s : trim (trim s) = trim s.
Proof.
  unfold trim. pose proof (trimStart_head s) as H.
  destruct (trimStart s) as [|c r]; [done|].
  rewrite trimEnd_cons_ink by done. cbn [trimStart]. rewrite H.
  by rewrite trimEnd_cons_ink, trimEnd_idem.
Qed.

End FenceShapes.

(** X3. The other well-formed fence, ["```\n<body>\n```"] without the word
    [json]: for every body that holds no fence both cleanups give the
    trimmed body. *)
Theorem cleanups_agree_on_plain_fence (body : jsstring) :
  JsString.includes fence body = false →
  cleanEnhanced (fencedPlain body) = JsString.trim body
  ∧ cleanOriginal (fencedPlain body) = JsString.trim body.
Proof.
  intros Hfree. split.
  - unfold cleanEnhanced. by rewrite replaceFenced_plain.
  - by apply cleanOriginal_plain.
Qed.

Lemma cleanups_agree_on_plain_fence_witness :
  cleanEnhanced (fencedPlain (js "[1, 2] ")) = js "[1, 2]"
  ∧ cleanOriginal (fencedPlain (js "[1, 2] ")) = js "[1, 2]".
Proof.
  apply (cleanups_agree_on_plain_fence (js "[1, 2] ")).
  reflexivity.
Defined.

(** X4. The two cleanups differ on a fence that is opened and never closed
    (a response cut short): the original parser still deletes the marker
    and yields the trimmed body, the enhanced parser leaves the marker at
    the head of the text. *)
Theorem cleanups_differ_on_unclosed_fence (body : jsstring) :
  JsString.includes fence body = false →
  cleanOriginal (unclosedJson body) = JsString.trim body
  ∧ cleanEnhanced (unclosedJson body) = fence_json ++ JsString.trimEnd (LF :: body)
  ∧ cleanEnhanced (unclosedJson body) ≠ cleanOriginal (unclosedJson body).
Proof.
  intros Hfree.
  assert (cleanEnhanced (unclosedJson body)
          = fence_json ++ JsString.trimEnd (LF :: body)) as He.
  { unfold cleanEnhanced. rewrite replaceFenced_unclosed by done.
    unfold JsString.trim, unclosedJson. cbn [app fence_json JsString.trimStart].
    change (JsString.isWhiteSpace 96) with false. cbn iota.
    by do 7 (rewrite trimEnd_cons_ink by reflexivity). }
  split; [by apply cleanOriginal_unclosed|]. split; [done|].
  rewrite He, cleanOriginal_unclosed by done. intros E.
  assert (JsString.includes fence (JsString.trim body) = true) as Hin.
  { rewrite <-E. apply includes_spec. by exists [], (json_word ++ JsString.trimEnd (LF :: body)). }
  by rewrite includes_trim in Hin.
Qed.

Lemma cleanups_differ_on_unclosed_fence_witness :
  cleanOriginal (unclosedJson (js "[1, 2]")) = js "[1, 2]"
  ∧ cleanEnhanced (unclosedJson (js "[1, 2]")) = fence_json ++ [LF] ++ js "[1, 2]".
Proof.
  destruct (cleanups_differ_on_unclosed_fence (js "[1, 2]") eq_refl) as (Ho & He & _).
  split; [exact Ho | exact He].
Defined.

(** ** The lines of the fallback and their backup *)

Section LineFacts.
Import JsString.

Lemma split_nonempty sep s : split sep s ≠ [].
Proof.
  destruct s as [|c s]; cbn [split]; [done|].
  destruct (c =? sep)%N; [done|]. by destruct (split sep s).
Qed.

(** No piece of a split holds the separator. *)
Lemma split_no_sep sep s l : l ∈ split sep s → sep ∉ l.
Proof.
  revert l. induction s as [|c s IH]; cbn [split]; intros l Hl.
  - apply list_elem_of_singleton in Hl as ->. apply not_elem_of_nil.
  - destruct (N.eqb_spec c sep) as [->|Hne].
    + apply elem_of_cons in Hl as [->|Hl]; [apply not_elem_of_nil|by apply IH].
    + destruct (split sep s) as [|l0 ls] eqn:E; [by destruct (split_nonempty sep s)|].
      apply elem_of_cons in Hl as [->|Hl].
      * intros [?|Hin]%elem_of_cons; [done|]. apply (IH l0); [by left|done].
      * apply IH. by right.
Qed.

Lemma split_whole sep x : sep ∉ x → split sep x = [x].
Proof.
  induction x as [|c x IH]; intros Hx; [done|].
  cbn [split]. destruct (N.eqb_spec c sep) as [->|Hne].
  - destruct Hx. by left.
  - rewrite IH; [done|]. intros Hin. apply Hx. by right.
Qed.

Lemma split_app_sep sep x rest :
  sep ∉ x → split sep (x ++ sep :: rest) = x :: split sep rest.
Proof.
  induction x as [|c x IH]; intros Hx.
  - cbn [app split]. by rewrite N.eqb_refl.
  - cbn [app split]. destruct (N.eqb_spec c sep) as [->|Hne].
    + destruct Hx. by left.
    + rewrite IH; [done|]. intros Hin. apply Hx. by right.
Qed.

(** [join] then [split] gives the lines back. *)
Lemma split_join (lines : list jsstring) :
  lines ≠ [] → (∀ l, l ∈ lines → LF ∉ l) →
  split LF (join [LF] lines) = lines.
Proof.
  induction lines as [|x lines IH]; intros Hne Hfree; [done|].
  destruct lines as [|y lines].
  - cbn [join]. apply split_whole, Hfree. by left.
  - change (join [LF] (x :: y :: lines)) with (x ++ LF :: join [LF] (y :: lines)).
    rewrite split_app_sep by (apply Hfree; by left).
    rewrite IH; [done|done|]. intros l Hl. apply Hfree. by right.
Qed.

Lemma trim_no_sep sep l : sep ∉ l → sep ∉ trim l.
Proof.
  intros H Hin. apply H. destruct (trim_infix l) as (a & b & E). rewrite E.
  rewrite !elem_of_app. auto.
Qed.

Lemma fallbackLines_no_LF j l : l ∈ Enhanced.fallbackLines j → LF ∉ l.
Proof.
  intros Hl. apply fallbackLines_spec in Hl as [(l0 & Hl0 & ->) _].
  by apply trim_no_sep, (split_no_sep LF j).
Qed.

Lemma digitsRev_digits fuel n c : c ∈ digitsRev fuel n → (48 ≤ c ≤ 57)%N.
Proof.
  revert n. induction fuel as [|fuel IH]; intros n; cbn [digitsRev].
  - by intros ?%elem_of_nil.
  - intros [->|Hc]%elem_of_cons.
    + assert (n mod 10 < 10)%N as Hm by (apply N.mod_lt; lia).
      clear IH. revert Hm. generalize (n mod 10)%N. intros m Hm. lia.
    + destruct (n <? 10)%N; [by apply elem_of_nil in Hc|by eapply IH].
Qed.

Lemma ofN_digits n c : c ∈ ofN n → (48 ≤ c ≤ 57)%N.
Proof.
  unfold ofN. rewrite list_elem_of_In, <-in_rev, <-list_elem_of_In.
  apply digitsRev_digits.
Qed.

Lemma dashTimestamp_no_colon iso :
  (58%N ∉ dashTimestamp iso) ∧ (46%N ∉ dashTimestamp iso).
Proof.
  unfold dashTimestamp. split.
  - intros H. apply list_elem_of_fmap in H as (c & Hc & _).
    destruct ((c =? 58) || (c =? 46))%N eqn:E; [discriminate Hc|].
    subst c. discriminate E.
  - intros H. apply list_elem_of_fmap in H as (c & Hc & _).
    destruct ((c =? 58) || (c =? 46))%N eqn:E; [discriminate Hc|].
    subst c. discriminate E.
Qed.

End LineFacts.

(** X5. The backup file of the fallback can be read back: its content,
    split on line feeds, is exactly the list of lines the fallback returns,
    and each of those lines is already trimmed. *)
Theorem fallback_backup_round_trip (jsonResponse : jsstring) :
  Enhanced.fallbackLines jsonResponse ≠ [] →
  JsString.split LF (JsString.join [LF] (Enhanced.fallbackLines jsonResponse))
  = Enhanced.fallbackLines jsonResponse
  ∧ ∀ line, line ∈ Enhanced.fallbackLines jsonResponse → JsString.trim line = line.
Proof.
  intros Hne. split.
  - apply split_join; [done|]. apply fallbackLines_no_LF.
  - intros line Hl. apply fallbackLines_spec in Hl as [(l0 & _ & ->) _].
    apply trim_idem.
Qed.

Lemma fallback_backup_round_trip_witness :
  JsString.split LF (JsString.join [LF] [js "Set up the board"; js "Handle turns"])
  = [js "Set up the board"; js "Handle turns"].
Proof.
  apply (proj1 (fallback_backup_round_trip
                  (js "  Set up the board  " ++ [LF] ++ fence ++ [LF] ++ js "Handle turns")
                  ltac:(vm_compute; discriminate))).
Defined.

(** X6. The names of the backup files of expansions and revisions hold no
    colon, whatever the clock says: the timestamp is written with dashes
    for its colons and dots. *)
Theorem backup_names_have_no_colon (iso : jsstring) (parentId : N) :
  (58%N ∉ dashTimestamp iso)
  ∧ (46%N ∉ dashTimestamp iso)
  ∧ length (dashTimestamp iso) = length iso
  ∧ (58%N ∉ Enhanced.subtasksBackupPath parentId (dashTimestamp iso))
  ∧ (58%N ∉ Enhanced.fallbackBackupPath parentId (dashTimestamp iso))
  ∧ (58%N ∉ Enhanced.revisedBackupPath (dashTimestamp iso)).
Proof.
  destruct (dashTimestamp_no_colon iso) as [Hc Hd].
  assert (58%N ∉ JsString.ofN parentId) as Hid.
  { intros H%ofN_digits. lia. }
  split; [done|]. split; [done|]. split; [apply length_fmap|].
  unfold Enhanced.subtasksBackupPath, Enhanced.fallbackBackupPath,
    Enhanced.revisedBackupPath.
  repeat split; rewrite !not_elem_of_app; repeat split; try done;
    vm_compute; intros H; repeat (apply elem_of_cons in H as [H|H]; [discriminate H|]);
    by apply elem_of_nil in H.
Qed.

(** ** What a call does to the world *)

(** X7. Every call, in either version, only adds events to the trace, and
    among them: at most one request to the service, sent only with a
    configured key and, for [parsePrdWithGemini], only after its input file
    was read; no read of any file but the requirements document handed to
    [parsePrdWithGemini]; and no write at all by the original parser. *)
Theorem io_discipline {JSON : JsonRuntime} (w : world) enhanced c s :
  ∃ evs,
    traceAfter (invoke w enhanced c s) = trace s ++ evs
    ∧ length (List.filter isPost evs) ≤ 1
    ∧ (∀ r, EvPost r ∈ evs → noApiKey w = false ∧ requestOf w enhanced s c = Some r)
    ∧ (∀ p, EvRead p ∈ evs → c = ParsePrd p)
    ∧ (∀ p b, EvWrite p b ∈ evs → enhanced = true).
Proof.
  unfold traceAfter.
  destruct c as [path|parentTask|userPrompt pastTasks futureTasks], enhanced;
    cbn [invoke];
    rewrite ?Enhanced_parsePrd_run, ?Enhanced_expand_run, ?Enhanced_revise_run,
      ?Original_parsePrd_run, ?Original_expand_run, ?Original_revise_run;
    cbv zeta.
  all: repeat case_match.
  all: repeat rewrite fallback_run; cbv zeta.
  all: repeat case_match.
  all: cbn [snd trace record ticked stored]; rewrite <-?app_assoc; cbn [app].
  all: eexists; (split; [reflexivity|]).
  all: split; [cbn [List.filter isPost length]; lia|].
  all: repeat split; intros;
    repeat match goal with
      | H : _ ∈ _ :: _ |- _ => apply elem_of_cons in H as [H|H]; [try discriminate H|]
      | H : _ ∈ [] |- _ => by apply elem_of_nil in H
      end;
    simplify_eq; cbn [requestOf]; try done.
  all: match goal with H : files _ !! _ = Some _ |- _ => by rewrite H end.
Qed.

(** X8. With a key but an input file that cannot be read,
    [parsePrdWithGemini] (either version) returns [null] after the one
    failed read and its diagnostic: the service is not contacted and no
    file changes. *)
Theorem unreadable_prd_sends_nothing {JSON : JsonRuntime} (w : world) enhanced path s :
  noApiKey w = false →
  files s !! path = None →
  invoke w enhanced (ParsePrd path) s
  = (Returned VNull, record [EvRead path; EvLog LError] s).
Proof.
  intros Hkey Hfile.
  destruct enhanced; cbn [invoke];
    rewrite ?Enhanced_parsePrd_run, ?Original_parsePrd_run;
    by rewrite Hkey, Hfile.
Qed.

Lemma unreadable_prd_sends_nothing_witness :
  invoke (JSON := refJson) (worldAnswering (js "[]") (fun _ => true)) true
    (ParsePrd (js "missing.txt")) someDisk
  = (Returned VNull, record [EvRead (js "missing.txt"); EvLog LError] someDisk).
Proof.
  apply (unreadable_prd_sends_nothing (JSON := refJson)
           (worldAnswering (js "[]") (fun _ => true)) true (js "missing.txt") someDisk).
  - reflexivity.
  - vm_compute. reflexivity.
Defined.

Lemma prdBackupPath_not_input path timestamp :
  Enhanced.prdBackupPath path timestamp ≠ path.
Proof.
  intros H. apply (f_equal length) in H.
  unfold Enhanced.prdBackupPath in H. rewrite !length_app in H.
  change (length (js ".tasks.")) with 7 in H. lia.
Qed.

(** X9. [parsePrdWithGemini] never changes the requirements document it
    is given: after the call, in either version and whatever the outcome,
    the file at [prdFilePath] is what it was. *)
Theorem parsePrd_keeps_its_input {JSON : JsonRuntime} (w : world) enhanced path s :
  filesAfter (invoke w enhanced (ParsePrd path) s) !! path = files s !! path.
Proof.
  unfold filesAfter.
  destruct enhanced; cbn [invoke];
    rewrite ?Enhanced_parsePrd_run, ?Original_parsePrd_run; cbv zeta;
    repeat case_match; cbn [snd files record ticked stored]; try done.
  by rewrite lookup_insert_ne by apply prdBackupPath_not_input.
Qed.


Lemma titles_truthy subs :
  forallb isTitledObject subs = true →
  Forall (fun v => truthy v = true) (map titleOf subs).
Proof.
  induction subs as [|x subs IH]; cbn [forallb map]; [constructor|].
  intros [Hx Hr]%andb_true_iff. constructor; [|by apply IH].
  by destruct x.
Qed.

Lemma lines_truthy j :
  Forall (fun v => truthy v = true) (map VString (Enhanced.fallbackLines j)).
Proof.
  apply Forall_forall. intros v Hv.
  apply list_elem_of_fmap in Hv as (l & -> & Hl).
  apply fallbackLines_spec in Hl as (_ & Hne & _). by destruct l.
Qed.

(** X11. No subtask title that [expandTaskWithGemini] returns is falsy:
    in either version every element of a returned array is truthy (a title
    that passed the shape check, or a non-empty line of the fallback). *)
Theorem expand_returns_truthy_titles {JSON : JsonRuntime} (w : world)
    enhanced parentTask s items :
  resultOf (invoke w enhanced (ExpandTask parentTask) s) = Returned (VArray items) →
  Forall (fun v => truthy v = true) items.
Proof.
  unfold resultOf.
  destruct enhanced; cbn [invoke];
    rewrite ?Enhanced_expand_run, ?Original_expand_run; cbv zeta.
  all: repeat case_match.
  all: repeat rewrite fallback_run; cbv zeta.
  all: repeat case_match.
  all: cbn [fst]; intros Heq; simplify_eq.
  all: try by apply titles_truthy.
  all: match goal with
       | H : Enhanced.fallbackLines ?j = _ |- _ =>
           pose proof (lines_truthy j) as Hl; by rewrite H in Hl
       end.
Qed.

Lemma expand_returns_truthy_titles_witness :
  Forall (fun v => truthy v = true) [VString (js "hello")].
Proof.
  apply (expand_returns_truthy_titles (JSON := refJson)
           (worldAnswering (js "hello") (fun _ => true)) true someTask someDisk).
  vm_compute. reflexivity.
Defined.

(** ** The enhanced parser against the original *)

(** X12. What the enhancement changes in the results.  Let both versions
    receive the same answer, on whose text the two cleanups agree, and let
    every backup be writable.  Then [parsePrdWithGemini] returns the same in
    both versions; the enhanced [reviseTasksWithGemini] returns what the
    original returns, or [null] where the original passes on a list with an
    entry that lacks an identifier or a string title; the enhanced
    [expandTaskWithGemini] returns what the original returns, or the lines
    of its fallback where the original returns [null]. *)
Theorem enhanced_refines_original {JSON : JsonRuntime} (w : world) c s
    requestEnhanced requestOriginal data raw :
  requestOf w true s c = Some requestEnhanced →
  requestOf w false s c = Some requestOriginal →
  axios_post w requestEnhanced = Resolved data →
  axios_post w requestOriginal = Resolved data →
  classify data = Text raw →
  cleanEnhanced raw = cleanOriginal raw →
  (∀ path, writable w path = true) →
  match c with
  | ParsePrd _ =>
      resultOf (invoke w true c s) = resultOf (invoke w false c s)
  | ReviseTasks _ _ _ =>
      resultOf (invoke w true c s) = resultOf (invoke w false c s)
      ∨ (resultOf (invoke w true c s) = Returned VNull
         ∧ ∃ tasks,
             resultOf (invoke w false c s) = Returned (VArray tasks)
             ∧ forallb hasIdAndStringTitle tasks = false)
  | ExpandTask _ =>
      resultOf (invoke w true c s) = resultOf (invoke w false c s)
      ∨ (resultOf (invoke w false c s) = Returned VNull
         ∧ ∃ line lines,
             Enhanced.fallbackLines (cleanEnhanced raw) = line :: lines
             ∧ resultOf (invoke w true c s) = Returned (VArray (map VString (line :: lines))))
  end.
Proof.
  intros Hreq1 Hreq0 Hpost1 Hpost0 Hcl Hclean Hw.
  destruct c as [path|parentTask|userPrompt pastTasks futureTasks];
    cbn [invoke requestOf] in *;
    rewrite ?Enhanced_parsePrd_run, ?Enhanced_expand_run, ?Enhanced_revise_run,
      ?Original_parsePrd_run, ?Original_expand_run, ?Original_revise_run;
    cbv zeta.
  - destruct (noApiKey w); [done|].
    destruct (files s !! path) as [content|]; [|done].
    cbn [fmap option_fmap option_map] in *. simplify_eq.
    rewrite Hpost1, Hpost0, Hcl, Hclean.
    destruct (JSON_parse (cleanOriginal raw)) as [[]|]; try done.
    by rewrite Hw.
  - destruct (noApiKey w); [by left|]. simplify_eq.
    rewrite Hpost1, Hpost0, Hcl, <-Hclean.
    destruct (JSON_parse (cleanEnhanced raw)) as [[| | | | |subs|]|] eqn:Hp;
      try destruct (forallb isTitledObject subs);
      rewrite ?Hw; try (by left);
      rewrite fallback_result, Hw;
      (destruct (Enhanced.fallbackLines (cleanEnhanced raw)) as [|l ls] eqn:Hl;
       [by left|right; split; [done|]; by exists l, ls]).
  - destruct (noApiKey w); [by left|]. simplify_eq.
    rewrite Hpost1, Hpost0, Hcl, Hclean.
    destruct (JSON_parse (cleanOriginal raw)) as [[| | | | |tasks|]|]; try by left.
    destruct (forallb hasIdAndStringTitle tasks) eqn:Hall.
    + left. by rewrite Hw.
    + right. split; [done|]. by exists tasks.
Qed.

Lemma enhanced_refines_original_witness :
  resultOf (invoke (JSON := refJson)
              (worldAnswering (fencedJson (jsq "[{'title':'A'}]")) (fun _ => true)) true
              (ParsePrd (js "prd.txt")) someDisk)
  = resultOf (invoke (JSON := refJson)
                (worldAnswering (fencedJson (jsq "[{'title':'A'}]")) (fun _ => true)) false
                (ParsePrd (js "prd.txt")) someDisk).
Proof.
  apply (enhanced_refines_original (JSON := refJson)
           (worldAnswering (fencedJson (jsq "[{'title':'A'}]")) (fun _ => true))
           (ParsePrd (js "prd.txt")) someDisk
           (prdRequest (worldAnswering (fencedJson (jsq "[{'title':'A'}]")) (fun _ => true))
              true (js "Build a game"))
           (prdRequest (worldAnswering (fencedJson (jsq "[{'title':'A'}]")) (fun _ => true))
              false (js "Build a game"))
           (answerWith (fencedJson (jsq "[{'title':'A'}]")))
           (fencedJson (jsq "[{'title':'A'}]"))).
  - vm_compute. reflexivity.
  - vm_compute. reflexivity.
  - reflexivity.
  - reflexivity.
  - reflexivity.
  - vm_compute. reflexivity.
  - intros path. reflexivity.
Defined.

(** ** A blank response *)

Section BlankFacts.
Import JsString.

Lemma trimStart_blank s : isBlank s = true → trimStart s = [].
Proof.
  unfold isBlank. induction s as [|c s IH]; cbn [forallb trimStart]; [done|].
  intros [Hc Hs]%andb_true_iff. rewrite Hc. by apply IH.
Qed.

Lemma trim_blank s : isBlank s = true → trim s = [].
Proof. intros H. unfold trim. by rewrite trimStart_blank. Qed.

Lemma blank_has_no_fence s : isBlank s = true → includes fence s = false.
Proof.
  intros H. apply not_true_iff_false. intros (u & v & ->)%includes_spec.
  unfold isBlank in H. rewrite forallb_forall in H.
  specialize (H 96%N). rewrite <-list_elem_of_In in H.
  assert (isWhiteSpace 96 = true) as Habs; [|done].
  apply H. rewrite !elem_of_app. right. left. by left.
Qed.

Lemma clean_blank enhanced s : isBlank s = true → clean enhanced s = [].
Proof.
  intros H. pose proof (blank_has_no_fence s H) as Hf.
  destruct enhanced; cbn [clean]; unfold cleanEnhanced, cleanOriginal.
  - by rewrite replaceFenced_absent, trim_blank.
  - rewrite (replaceAll_absent fence_json) by by apply (includes_longer fence json_word).
    by rewrite replaceAll_absent, trim_blank.
Qed.

End BlankFacts.

(** X13. A response text of white space only is a failure everywhere: both
    cleanups reduce it to the empty text, the fallback finds no line in it,
    and each function, in either version, returns [null] (given that
    [JSON.parse] does not make an array of the empty text). *)
Theorem blank_response_is_null {JSON : JsonRuntime} (w : world)
    enhanced c s req data raw :
  requestOf w enhanced s c = Some req →
  axios_post w req = Resolved data →
  classify data = Text raw →
  isBlank raw = true →
  (∀ items, JSON_parse [] ≠ Some (VArray items)) →
  clean enhanced raw = []
  ∧ Enhanced.fallbackLines (cleanEnhanced raw) = []
  ∧ resultOf (invoke w enhanced c s) = Returned VNull.
Proof.
  intros Hreq Hpost Hcl Hblank Hjson.
  assert (Enhanced.fallbackLines (cleanEnhanced raw) = []) as Hlines.
  { change (cleanEnhanced raw) with (clean true raw). by rewrite clean_blank. }
  split; [by apply clean_blank|]. split; [done|].
  destruct (failure_result w enhanced c s NotAJsonArray) as [Hnull|Hfb].
  - eapply fail_array; [done..|]. by rewrite clean_blank.
  - done.
  - destruct Hfb as (-> & _ & t & d & r & -> & Hp & Hc & Hne & _).
    cbn [requestOf] in Hreq. simplify_eq.
    rewrite Hpost in Hp. simplify_eq. rewrite Hcl in Hc. by simplify_eq.
Qed.

Lemma blank_response_is_null_witness :
  resultOf (invoke (JSON := refJson) (worldAnswering (js "   ") (fun _ => true)) true
              (ExpandTask someTask) someDisk)
  = Returned VNull.
Proof.
  apply (blank_response_is_null (JSON := refJson)
           (worldAnswering (js "   ") (fun _ => true)) true (ExpandTask someTask) someDisk
           (expandRequest (worldAnswering (js "   ") (fun _ => true)) true someTask)
           (answerWith (js "   ")) (js "   ")).
  - reflexivity.
  - reflexivity.
  - reflexivity.
  - reflexivity.
  - intros items H. vm_compute in H. discriminate H.
Defined.

(** X14. The enhanced expansion gives up only when there is nothing to
    return: with a key, an answer that has a text, and backups that can be
    written, [expandTaskWithGemini] returns [null] exactly when the strict
    parse rejects the cleaned text and the fallback finds no line in it. *)
Theorem enhanced_expand_null_iff_nothing {JSON : JsonRuntime} (w : world)
    parentTask s data raw :
  noApiKey w = false →
  axios_post w (expandRequest w true parentTask) = Resolved data →
  classify data = Text raw →
  (∀ path, writable w path = true) →
  resultOf (Enhanced.expandTaskWithGemini w parentTask s) = Returned VNull
  ↔ (∀ subs, JSON_parse (cleanEnhanced raw) = Some (VArray subs) →
             forallb isTitledObject subs = false)
    ∧ Enhanced.fallbackLines (cleanEnhanced raw) = [].
Proof.
  intros Hkey Hpost Hcl Hw.
  rewrite Enhanced_expand_run, Hkey. cbv zeta. rewrite Hpost, Hcl.
  destruct (JSON_parse (cleanEnhanced raw)) as [[| | | | |subs|]|] eqn:Hp;
    try destruct (forallb isTitledObject subs) eqn:Hall;
    rewrite ?Hw, ?fallback_result, ?Hw;
    try (destruct (Enhanced.fallbackLines (cleanEnhanced raw)) as [|l ls] eqn:Hl);
    cbn [resultOf fst]; split; try done;
    try (intros [_ ?]; done); try (intros _; split; [|done]; intros; simplify_eq; done).
  intros [Hs _]. specialize (Hs subs eq_refl). congruence.
Qed.

Lemma enhanced_expand_null_iff_nothing_witness :
  resultOf (Enhanced.expandTaskWithGemini (JSON := refJson)
              (worldAnswering (fence ++ [LF] ++ fence) (fun _ => true)) someTask someDisk)
  = Returned VNull.
Proof.
  apply (enhanced_expand_null_iff_nothing (JSON := refJson)
           (worldAnswering (fence ++ [LF] ++ fence) (fun _ => true)) someTask someDisk
           (answerWith (fence ++ [LF] ++ fence)) (fence ++ [LF] ++ fence)
           eq_refl eq_refl eq_refl (fun _ => eq_refl)).
  split.
  - intros subs H. vm_compute in H. discriminate H.
  - vm_compute. reflexivity.
Defined.
